(** * pansens: mouse-sensitivity conversion between platforms

    A shallow embedding of [src/main.py].  Python's [float] is IEEE-754
    binary64; it is modelled by the Standard Library's [spec_float] at
    precision 53 and maximal exponent 1024, so that rounding, signed
    zeros, infinities and NaN behave as they do in the interpreter.
    Python's [int] is unbounded and is modelled by [Z].  Exceptions are
    modelled by a small error monad. *)

From Stdlib Require Import ZArith List Bool Lia Sorted QArith Qabs.
From Stdlib Require Import Floats.SpecFloat.
From Stdlib Require String DecimalString DecimalZ.
Import ListNotations.

Local Open Scope Z_scope.

(** ** Python floats *)

Module Float.

Definition prec : Z := 53.
Definition emax : Z := 1024.

Definition float : Type := spec_float.

(** The values a Python [float] can hold. *)
Definition valid (x : float) : bool := valid_binary prec emax x.

(** [float(z)] for an integer [z]. *)
Definition of_Z (z : Z) : float := binary_normalize prec emax z 0 false.

Definition add : float -> float -> float := SFadd prec emax.
Definition sub : float -> float -> float := SFsub prec emax.
Definition div : float -> float -> float := SFdiv prec emax.
Definition abs : float -> float := SFabs.
Definition neg : float -> float := SFopp.

Definition ltb : float -> float -> bool := SFltb.
Definition leb : float -> float -> bool := SFleb.
Definition eqb : float -> float -> bool := SFeqb.
Definition gtb (x y : float) : bool := SFltb y x.

Definition is_nan (x : float) : bool :=
  match x with S754_nan => true | _ => false end.

(** Integer true division, [a / b] in Python 3, for integers that are
    exactly representable: the quotient of the two conversions is then the
    correctly rounded quotient. *)
Definition truediv (a b : Z) : float := div (of_Z a) (of_Z b).

(** A decimal literal [n / 10^k], read as the nearest binary64. *)
Definition decimal (n : Z) (k : Z) : float := div (of_Z n) (of_Z (10 ^ k)).

End Float.

Abbreviation float := Float.float.

(** ** Exceptions *)

Inductive exception : Type :=
| ValueError
| TypeError
| KeyError.

Inductive result (A : Type) : Type :=
| Return (a : A)
| Raise (e : exception).

Arguments Return {A} a.
Arguments Raise {A} e.

Definition bind {A B : Type} (c : result A) (k : A -> result B) : result B :=
  match c with
  | Return a => k a
  | Raise e => Raise e
  end.

Declare Scope py_scope.
Delimit Scope py_scope with py.
Notation "x <- c ;; k" := (bind c (fun x => k))
  (at level 61, c at next level, right associativity) : py_scope.
Local Open Scope py_scope.

(** ** Built-ins used by the program *)

Module Builtins.

(** [d[k]] on a dict kept in insertion order. *)
Fixpoint getitem {V : Type} (d : list (Z * V)) (k : Z) : result V :=
  match d with
  | [] => Raise KeyError
  | (k', v) :: d' => if Z.eqb k' k then Return v else getitem d' k
  end.

(** [d.items()]: the pairs, in insertion order. *)
Definition items {V : Type} (d : list (Z * V)) : list (Z * V) := d.

(** The scan of [min(iterable, key=f)]: the running best item is replaced
    only when the key of the next item is strictly smaller. *)
Fixpoint min_scan {A : Type} (key : A -> float) (best : A) (kbest : float)
         (l : list A) : A :=
  match l with
  | [] => best
  | x :: l' =>
      let kx := key x in
      if Float.ltb kx kbest then min_scan key x kx l'
      else min_scan key best kbest l'
  end.

Definition min_key {A : Type} (key : A -> float) (l : list A) : result A :=
  match l with
  | [] => Raise ValueError
  | x :: l' => Return (min_scan key x (key x) l')
  end.

(** [min(a, b)] and [max(a, b)] on two floats: the first argument is kept
    unless the second compares strictly below (above) it. *)
Definition min2 (a b : float) : float := if Float.ltb b a then b else a.
Definition max2 (a b : float) : float := if Float.gtb b a then b else a.

End Builtins.

(** ** Data model *)

(** Neutral representation. *)
Record IntermediateSensitivity : Type :=
  Build_IntermediateSensitivity { multiplier : float }.

(** Instances of the subclasses of [Sensitivity].  [OtherSensitivity] stands
    for an instance of any subclass other than the two defined here, which
    is what the [isinstance] guards of the platforms reject. *)
Inductive Sensitivity : Type :=
| WindowsSensitivity (tick : Z)
| KDESensitivity (value : float)
| OtherSensitivity.

(** [WindowsSensitivity.__init__] *)
Definition WindowsSensitivity_init (tick : Z) : result Sensitivity :=
  if negb ((1 <=? tick) && (tick <=? 20)) then Raise ValueError
  else Return (WindowsSensitivity tick).

(** [KDESensitivity.__init__] *)
Definition KDESensitivity_init (value : float) : result Sensitivity :=
  if negb (Float.leb (Float.neg (Float.of_Z 1)) value
           && Float.leb value (Float.of_Z 1))
  then Raise ValueError
  else Return (KDESensitivity value).

(** Platform interface. *)
Record SensitivityPlatform : Type := {
  to_intermediate : Sensitivity -> result IntermediateSensitivity;
  from_intermediate : IntermediateSensitivity -> result Sensitivity
}.

(** ** Windows implementation *)

Module WindowsPlatform.

(** Mapping from tick to multiplier. *)
Definition _tick_map : list (Z * float) :=
  [ (1, Float.truediv 1 32);
    (2, Float.truediv 1 16);
    (3, Float.truediv 1 8);
    (4, Float.truediv 2 8);
    (5, Float.truediv 3 8);
    (6, Float.truediv 4 8);
    (7, Float.truediv 5 8);
    (8, Float.truediv 6 8);
    (9, Float.truediv 7 8);
    (10, Float.of_Z 1);
    (11, Float.decimal 125 2);
    (12, Float.decimal 15 1);
    (13, Float.decimal 175 2);
    (14, Float.of_Z 2);
    (15, Float.decimal 225 2);
    (16, Float.decimal 25 1);
    (17, Float.decimal 275 2);
    (18, Float.of_Z 3);
    (19, Float.decimal 325 2);
    (20, Float.decimal 35 1) ].

Definition to_intermediate (sensitivity : Sensitivity)
  : result IntermediateSensitivity :=
  match sensitivity with
  | WindowsSensitivity tick =>
      m <- Builtins.getitem _tick_map tick ;;
      Return (Build_IntermediateSensitivity m)
  | _ => Raise TypeError
  end.

(** The key of the scan, [abs(kv[1] - sensitivity.multiplier)]. *)
Definition distance (sensitivity : IntermediateSensitivity)
           (kv : Z * float) : float :=
  Float.abs (Float.sub (snd kv) (multiplier sensitivity)).

Definition from_intermediate (sensitivity : IntermediateSensitivity)
  : result Sensitivity :=
  closest <- Builtins.min_key (distance sensitivity)
               (Builtins.items _tick_map) ;;
  WindowsSensitivity_init (fst closest).

Definition platform : SensitivityPlatform :=
  Build_SensitivityPlatform to_intermediate from_intermediate.

End WindowsPlatform.

(** ** KDE implementation *)

Module KDEPlatform.

Definition to_intermediate (sensitivity : Sensitivity)
  : result IntermediateSensitivity :=
  match sensitivity with
  | KDESensitivity value =>
      let multiplier := Float.add (Float.of_Z 1) value in
      Return (Build_IntermediateSensitivity multiplier)
  | _ => Raise TypeError
  end.

Definition from_intermediate (sensitivity : IntermediateSensitivity)
  : result Sensitivity :=
  let val := Float.sub (multiplier sensitivity) (Float.of_Z 1) in
  let val := Builtins.max2 (Float.neg (Float.of_Z 1))
               (Builtins.min2 (Float.of_Z 1) val) in
  KDESensitivity_init val.

Definition platform : SensitivityPlatform :=
  Build_SensitivityPlatform to_intermediate from_intermediate.

End KDEPlatform.

(** ** Conversion function *)

Definition convert_sensitivity (from_platform to_platform : SensitivityPlatform)
           (sensitivity : Sensitivity) : result Sensitivity :=
  intermediate <- to_intermediate from_platform sensitivity ;;
  from_intermediate to_platform intermediate.

(** * Specification vocabulary *)

(** ** Exact values *)

(** The exact value of a finite float, counted in units of [2^-1074], the
    smallest positive binary64. *)
Definition scaled (x : float) : Z :=
  match x with
  | S754_finite s m e => cond_Zopp s (Z.pos m) * 2 ^ (e + 1074)
  | _ => 0
  end.

Definition finite_or_zero (x : float) : bool :=
  match x with
  | S754_finite _ _ _ | S754_zero _ => true
  | _ => false
  end.

(** The exact value of a finite float as a rational number. *)
Definition to_Q (x : float) : Q := Qmake (scaled x) (2 ^ 1074)%positive.

(** The exponent of the spacing of binary64 around a value [S] given in
    units of [2^-1074]: values below [2^53] units are all representable,
    and every further binade doubles the spacing. *)
Definition ulp_exp (S : Z) : Z := Z.max (Z.log2 (Z.abs S) - 52) 0.

(** [r] is a correctly rounded binary64 for the exact value [S] (in units
    of [2^-1074]): a finite float on the grid around [S] and at most half
    a spacing away from it. *)
Definition rounds_to (S : Z) (r : float) : Prop :=
  Float.valid r = true /\ finite_or_zero r = true /\
  (2 ^ ulp_exp S | scaled r) /\
  2 * Z.abs (scaled r - S) <= 2 ^ ulp_exp S.

(** The place of the discarded part [M mod 2^n] of a right shift by [n]
    with respect to the half-way point. *)
Definition location_of (M n : Z) : location :=
  let rem := M mod 2 ^ n in
  if rem =? 0 then loc_Exact else loc_Inexact (2 * rem ?= 2 ^ n).

(** [M / 2^n] rounded to the nearest integer, ties to even. *)
Definition rne (M n : Z) : Z := round_nearest_even (M / 2 ^ n) (location_of M n).

(** What [n] steps of [shr_1] leave of a non-negative [M]. *)
Definition shifted (M : Z) (n : Z) (mrs : shr_record) : Prop :=
  shr_m mrs = M / 2 ^ n /\ loc_of_shr_record mrs = location_of M n.

(** ** Order *)

(** The position of a float that is not NaN in the order of [SFcompare]:
    sign class first, then exponent, then mantissa. *)
Definition rank (x : float) : Z * Z * Z :=
  match x with
  | S754_infinity true => (-2, 0, 0)
  | S754_finite true m e => (-1, - e, - Z.pos m)
  | S754_zero _ => (0, 0, 0)
  | S754_nan => (0, 0, 0)
  | S754_finite false m e => (1, e, Z.pos m)
  | S754_infinity false => (2, 0, 0)
  end.

Definition lex3 (p q : Z * Z * Z) : comparison :=
  let '(a, b, c) := p in
  let '(a', b', c') := q in
  match a ?= a' with
  | Eq => match b ?= b' with
          | Eq => c ?= c'
          | r => r
          end
  | r => r
  end.

(** ** Legal ranges and distances *)

(** The legal range of a KDE value, as [KDESensitivity.__init__] tests it. *)
Definition kde_in_range (v : float) : Prop :=
  Float.leb (Float.neg (Float.of_Z 1)) v = true /\ Float.leb v (Float.of_Z 1) = true.

(** The legal range of a KDE value, as the numbers say it: a finite value
    between -1 and 1. *)
Definition kde_legal (v : float) : Prop :=
  finite_or_zero v = true /\ (-1 <= to_Q v)%Q /\ (to_Q v <= 1)%Q.

(** The exact distance between a table entry and a multiplier, in units of
    [2^-1074]. *)
Definition exact_distance (m : IntermediateSensitivity) (kv : Z * float) : Z :=
  Z.abs (scaled (snd kv) - scaled (multiplier m)).

(** ** Platforms and values, for statements about conversions *)

(** The two platform objects of the program. *)
Definition is_platform (p : SensitivityPlatform) : Prop :=
  p = WindowsPlatform.platform \/ p = KDEPlatform.platform.

(** A sensitivity object as its constructor leaves it. *)
Definition constructed (s : Sensitivity) : Prop :=
  (exists t, WindowsSensitivity_init t = Return s) \/
  (exists v, KDESensitivity_init v = Return s).

(** The class of sensitivity a platform owns. *)
Definition owns (p : SensitivityPlatform) (s : Sensitivity) : Prop :=
  (p = WindowsPlatform.platform /\ exists t, s = WindowsSensitivity t) \/
  (p = KDEPlatform.platform /\ exists v, s = KDESensitivity v).

(** A sensitivity of the class of [p] that is within the legal range. *)
Definition legal_for (p : SensitivityPlatform) (s : Sensitivity) : Prop :=
  (p = WindowsPlatform.platform /\ exists t, s = WindowsSensitivity t /\ 1 <= t <= 20) \/
  (p = KDEPlatform.platform /\ exists v, s = KDESensitivity v /\ kde_in_range v).

(** ** Ranges of multipliers *)

(** A multiplier of magnitude at most [2^46]: within this range the
    spacing of the floats stays below a quarter of the smallest step of the
    table. *)
Definition moderate (m : IntermediateSensitivity) : Prop :=
  Float.valid (multiplier m) = true /\
  Float.leb (Float.abs (multiplier m)) (Float.of_Z (2 ^ 46)) = true.

(** A finite multiplier of magnitude between [2^57] and [2^1022]: so large
    that subtracting a table entry from it changes nothing. *)
Definition huge (m : IntermediateSensitivity) : Prop :=
  Float.valid (multiplier m) = true /\
  Float.leb (Float.of_Z (2 ^ 57)) (Float.abs (multiplier m)) = true /\
  Float.leb (Float.abs (multiplier m)) (Float.of_Z (2 ^ 1022)) = true.

(** A multiplier that is NaN, infinite, or finite of magnitude at most
    [2^1022]. *)
Definition below_top (m : IntermediateSensitivity) : Prop :=
  multiplier m = S754_nan \/ (exists s, multiplier m = S754_infinity s) \/
  (Float.valid (multiplier m) = true /\
   Float.leb (Float.abs (multiplier m)) (Float.of_Z (2 ^ 1022)) = true).

(** A KDE value [v] is fixed when the way to the neutral value and back,
    [max(-1.0, min(1.0, (1.0 + v) - 1.0))], returns this very float. *)
Definition kde_fixed (v : float) : Prop :=
  Builtins.max2 (Float.neg (Float.of_Z 1))
    (Builtins.min2 (Float.of_Z 1)
       (Float.sub (Float.add (Float.of_Z 1) v) (Float.of_Z 1))) = v.

(** ** Entry point *)

Module Cli.

Import String.

(** What a run can end with beyond the exceptions of the core: [int] of an
    infinite float raises [OverflowError]. *)
Inductive cli_exception : Type :=
| CoreError (e : exception)
| OverflowError.

Inductive outcome (A : Type) : Type :=
| Done (a : A)
| Abort (e : cli_exception).

Arguments Done {A} a.
Arguments Abort {A} e.

Definition lift {A : Type} (c : result A) : outcome A :=
  match c with
  | Return a => Done a
  | Raise e => Abort (CoreError e)
  end.

Definition and_then {A B : Type} (c : outcome A) (k : A -> outcome B) : outcome B :=
  match c with
  | Done a => k a
  | Abort e => Abort e
  end.

(** [int(x)] for a float: truncation toward zero; NaN and the infinities
    have no integer. *)
Definition int_of_float (x : float) : outcome Z :=
  match x with
  | S754_nan => Abort (CoreError ValueError)
  | S754_infinity _ => Abort OverflowError
  | S754_zero _ => Done 0
  | S754_finite s m e => Done (cond_Zopp s (Z.shiftl (Z.pos m) e))
  end.

(** The arguments as [parse_args] returns them: the two platform names,
    which argparse admits from the two choices only, and the value, already
    converted by [float]. *)
Record Namespace : Type := {
  from_platform : String.string;
  to_platform : String.string;
  value : float
}.

(** [d[k]] on a dict with string keys. *)
Fixpoint getitem_str {V : Type} (d : list (String.string * V)) (k : String.string)
  : result V :=
  match d with
  | [] => Raise KeyError
  | (k', v) :: d' => if String.eqb k' k then Return v else getitem_str d' k
  end.

Definition platforms : list (String.string * SensitivityPlatform) :=
  [ ("windows"%string, WindowsPlatform.platform);
    ("kde"%string, KDEPlatform.platform) ].

(** The body of [main] between [parse_args] and [print]; the result is the
    object that is printed. *)
Definition main (args : Namespace) : outcome Sensitivity :=
  and_then (lift (getitem_str platforms (from_platform args))) (fun from_p =>
  and_then (lift (getitem_str platforms (to_platform args))) (fun to_p =>
  and_then (if String.eqb (from_platform args) "windows"%string
            then and_then (int_of_float (value args))
                          (fun t => lift (WindowsSensitivity_init t))
            else lift (KDESensitivity_init (value args))) (fun sensitivity =>
  lift (convert_sensitivity from_p to_p sensitivity)))).

(** The names argparse lets through. *)
Definition choice (name : String.string) : Prop :=
  name = "windows"%string \/ name = "kde"%string.

End Cli.

(** ** Display *)

Module Repr.

Import String.

(** [str(z)] for an integer: the decimal digits, with a minus sign for a
    negative number. *)
Definition str_int (z : Z) : string :=
  DecimalString.NilEmpty.string_of_int (Z.to_int z).

(** [WindowsSensitivity.__repr__], on the tick of the object. *)
Definition WindowsSensitivity_repr (tick : Z) : string :=
  ("WindowsSensitivity(tick=" ++ str_int tick ++ ")")%string.

End Repr.

(** * Properties *)

(** ** The table *)

Section TickMap.

Import WindowsPlatform.

(** A property that holds of every entry can be checked by running over
    the twenty entries. *)
Lemma tick_map_forallb (p : Z * float -> bool) :
  forallb p _tick_map = true ->
  forall kv, In kv _tick_map -> p kv = true.
Proof.
  intros H kv Hin. rewrite forallb_forall in H. now apply H.
Qed.

Lemma tick_map_keys kv : In kv _tick_map -> 1 <= fst kv <= 20.
Proof.
  intros Hin.
  assert (Hall : forallb (fun kv => (1 <=? fst kv) && (fst kv <=? 20))
                         _tick_map = true) by (vm_compute; reflexivity).
  pose proof (tick_map_forallb _ Hall kv Hin) as H.
  cbv beta in H. apply andb_true_iff in H. lia.
Qed.

Lemma getitem_In {V : Type} (d : list (Z * V)) k v :
  Builtins.getitem d k = Return v -> In (k, v) d.
Proof.
  induction d as [|[k' v'] d IH]; simpl; [discriminate|].
  destruct (Z.eqb_spec k' k) as [->|Hne].
  - intros [= ->]. now left.
  - intros H. right. now apply IH.
Qed.

(** Every tick of the legal range is a key of the table. *)
Lemma getitem_tick_map t :
  1 <= t <= 20 -> exists x, Builtins.getitem _tick_map t = Return x.
Proof.
  intros Ht.
  assert (Hcases : t = 1 \/ t = 2 \/ t = 3 \/ t = 4 \/ t = 5 \/ t = 6 \/ t = 7
                   \/ t = 8 \/ t = 9 \/ t = 10 \/ t = 11 \/ t = 12 \/ t = 13
                   \/ t = 14 \/ t = 15 \/ t = 16 \/ t = 17 \/ t = 18 \/ t = 19
                   \/ t = 20) by lia.
  repeat (destruct Hcases as [-> | Hcases]; [eexists; vm_compute; reflexivity|]).
  subst t. eexists; vm_compute; reflexivity.
Qed.

End TickMap.

(** ** The scan of [min] *)

Section MinScan.

Context {A : Type} (key : A -> float).

Lemma min_scan_In (l : list A) : forall best kbest,
  In (Builtins.min_scan key best kbest l) (best :: l).
Proof.
  induction l as [|x l IH]; intros best kbest; simpl.
  - now left.
  - destruct (Float.ltb (key x) kbest).
    + right. apply IH.
    + destruct (IH best kbest) as [H|H]; [now left | right; now right].
Qed.

Lemma min_key_In (l : list A) r :
  Builtins.min_key key l = Return r -> In r l.
Proof.
  destruct l as [|x l]; simpl; [discriminate|].
  intros [= <-]. apply min_scan_In.
Qed.

Lemma min_key_nonempty (l : list A) :
  l <> [] -> exists r, Builtins.min_key key l = Return r.
Proof.
  destruct l as [|x l]; [congruence|]. intros _. simpl. eauto.
Qed.

End MinScan.

(** ** Construction *)

Lemma WindowsSensitivity_init_ok t :
  1 <= t <= 20 -> WindowsSensitivity_init t = Return (WindowsSensitivity t).
Proof.
  intros Ht. unfold WindowsSensitivity_init.
  replace ((1 <=? t) && (t <=? 20)) with true; [reflexivity|].
  symmetry. apply andb_true_iff. split; apply Z.leb_le; lia.
Qed.

Lemma WindowsSensitivity_init_inv t s :
  WindowsSensitivity_init t = Return s -> 1 <= t <= 20 /\ s = WindowsSensitivity t.
Proof.
  unfold WindowsSensitivity_init.
  destruct ((1 <=? t) && (t <=? 20)) eqn:E; simpl; [|discriminate].
  intros [= <-]. apply andb_true_iff in E. split; [lia | reflexivity].
Qed.

Lemma KDESensitivity_init_ok v :
  kde_in_range v -> KDESensitivity_init v = Return (KDESensitivity v).
Proof.
  unfold KDESensitivity_init, kde_in_range. intros [H1 H2]. now rewrite H1, H2.
Qed.

Lemma KDESensitivity_init_inv v s :
  KDESensitivity_init v = Return s -> kde_in_range v /\ s = KDESensitivity v.
Proof.
  unfold KDESensitivity_init, kde_in_range.
  destruct (Float.leb _ v && Float.leb v _) eqn:E; cbn [negb]; [|discriminate].
  intros [= <-]. now apply andb_true_iff in E.
Qed.

Lemma KDESensitivity_init_raise v :
  ~ kde_in_range v -> KDESensitivity_init v = Raise ValueError.
Proof.
  unfold KDESensitivity_init, kde_in_range. intros Hn.
  destruct (Float.leb _ v && Float.leb v _) eqn:E; cbn [negb]; [|reflexivity].
  apply andb_true_iff in E. contradiction.
Qed.

(** ** The order of floats *)

Lemma SFcompare_rank x y :
  Float.is_nan x = false -> Float.is_nan y = false ->
  SFcompare x y = Some (lex3 (rank x) (rank y)).
Proof.
  destruct x as [sx|sx| |sx mx ex], y as [sy|sy| |sy my ey];
    try discriminate; intros _ _;
    try destruct sx; try destruct sy; try reflexivity.
  cbn [SFcompare rank lex3]. change (-1 ?= -1) with Eq. cbv iota.
  rewrite Z.compare_opp, Pos.compare_cont_spec. cbn [Pos.switch_Eq].
  rewrite (Z.compare_antisym ey ex).
  destruct (ey ?= ex); cbn [CompOpp]; try reflexivity.
  rewrite Z.compare_opp. cbn [Z.compare].
  rewrite (Pos.compare_antisym mx my).
  now destruct (mx ?= my)%positive.
Qed.

Lemma lex3_Lt p q :
  lex3 p q = Lt <->
  (let '(a, b, c) := p in let '(a', b', c') := q in
   a < a' \/ (a = a' /\ (b < b' \/ (b = b' /\ c < c')))).
Proof.
  destruct p as [[a b] c], q as [[a' b'] c']. unfold lex3.
  destruct (Z.compare_spec a a'), (Z.compare_spec b b'), (Z.compare_spec c c');
    split; intros Hlt; try discriminate; try reflexivity; lia.
Qed.

Lemma lex3_Eq p q : lex3 p q = Eq <-> p = q.
Proof.
  destruct p as [[a b] c], q as [[a' b'] c']. unfold lex3.
  destruct (Z.compare_spec a a'), (Z.compare_spec b b'), (Z.compare_spec c c');
    split; intros Heq; try discriminate; try reflexivity;
    try (injection Heq; intros; lia); subst; reflexivity.
Qed.

Lemma lex3_Gt p q : lex3 p q = Gt <-> lex3 q p = Lt.
Proof.
  destruct p as [[a b] c], q as [[a' b'] c']. unfold lex3.
  rewrite (Z.compare_antisym a a'), (Z.compare_antisym b b'), (Z.compare_antisym c c').
  destruct (a ?= a'), (b ?= b'), (c ?= c'); cbn; split; intros H;
    try discriminate; reflexivity.
Qed.

Section FloatOrder.

Variables x y z : float.
Hypothesis Hx : Float.is_nan x = false.
Hypothesis Hy : Float.is_nan y = false.
Hypothesis Hz : Float.is_nan z = false.

Lemma ltb_rank : Float.ltb x y = true <-> lex3 (rank x) (rank y) = Lt.
Proof.
  unfold Float.ltb, SFltb. rewrite (SFcompare_rank x y Hx Hy).
  destruct (lex3 (rank x) (rank y)); split; congruence.
Qed.

Lemma leb_rank : Float.leb x y = true <-> lex3 (rank x) (rank y) <> Gt.
Proof.
  unfold Float.leb, SFleb. rewrite (SFcompare_rank x y Hx Hy).
  destruct (lex3 (rank x) (rank y)); split; congruence.
Qed.

Lemma eqb_rank : Float.eqb x y = true <-> rank x = rank y.
Proof.
  unfold Float.eqb, SFeqb. rewrite (SFcompare_rank x y Hx Hy), <- lex3_Eq.
  destruct (lex3 (rank x) (rank y)); split; congruence.
Qed.

End FloatOrder.

Lemma ltb_not_nan x y : Float.ltb x y = true -> Float.is_nan x = false /\ Float.is_nan y = false.
Proof. destruct x, y; try discriminate; now split. Qed.

Lemma leb_not_nan x y : Float.leb x y = true -> Float.is_nan x = false /\ Float.is_nan y = false.
Proof. destruct x, y; try discriminate; now split. Qed.

Lemma ltb_leb x y : Float.ltb x y = true -> Float.leb x y = true.
Proof.
  unfold Float.ltb, Float.leb, SFltb, SFleb.
  now destruct (SFcompare x y) as [[]|].
Qed.

Lemma ltb_false_leb x y :
  Float.is_nan x = false -> Float.is_nan y = false ->
  Float.ltb x y = false -> Float.leb y x = true.
Proof.
  intros Hx Hy H. apply leb_rank; trivial. intros Hgt.
  apply lex3_Gt, ltb_rank in Hgt; trivial. congruence.
Qed.

Lemma ltb_trans x y z :
  Float.ltb x y = true -> Float.ltb y z = true -> Float.ltb x z = true.
Proof.
  intros H1 H2.
  destruct (ltb_not_nan _ _ H1) as [Hx Hy], (ltb_not_nan _ _ H2) as [_ Hz].
  apply ltb_rank in H1, H2; trivial. apply ltb_rank; trivial.
  apply lex3_Lt in H1, H2. apply lex3_Lt.
  destruct (rank x) as [[? ?] ?], (rank y) as [[? ?] ?], (rank z) as [[? ?] ?]. lia.
Qed.

Lemma ltb_leb_trans x y z :
  Float.ltb x y = true -> Float.leb y z = true -> Float.ltb x z = true.
Proof.
  intros H1 H2.
  destruct (ltb_not_nan _ _ H1) as [Hx Hy], (leb_not_nan _ _ H2) as [_ Hz].
  apply ltb_rank in H1; trivial. apply leb_rank in H2; trivial.
  apply ltb_rank; trivial.
  destruct (lex3 (rank y) (rank z)) eqn:E; [| |congruence].
  - apply lex3_Eq in E. now rewrite <- E.
  - apply lex3_Lt in H1, E. apply lex3_Lt.
    destruct (rank x) as [[? ?] ?], (rank y) as [[? ?] ?], (rank z) as [[? ?] ?]. lia.
Qed.

Lemma leb_trans x y z :
  Float.leb x y = true -> Float.leb y z = true -> Float.leb x z = true.
Proof.
  intros H1 H2.
  destruct (Float.ltb x y) eqn:E.
  - apply ltb_leb. now apply ltb_leb_trans with y.
  - destruct (leb_not_nan _ _ H1) as [Hx Hy], (leb_not_nan _ _ H2) as [_ Hz].
    assert (Hr : rank x = rank y).
    { apply leb_rank in H1; trivial.
      destruct (lex3 (rank x) (rank y)) eqn:E'; [now apply lex3_Eq| |congruence].
      apply ltb_rank in E'; trivial. congruence. }
    apply leb_rank in H2; trivial. apply leb_rank; trivial. now rewrite Hr.
Qed.

Lemma leb_refl x : Float.is_nan x = false -> Float.leb x x = true.
Proof.
  intros Hx. apply leb_rank; trivial.
  rewrite (proj2 (lex3_Eq _ _) eq_refl). discriminate.
Qed.

(** Equal to a finite float under [==] means being that float. *)
Lemma eqb_finite_inv x s m e :
  Float.eqb x (S754_finite s m e) = true -> x = S754_finite s m e.
Proof.
  intros H.
  assert (Hx : Float.is_nan x = false) by (now destruct x).
  apply eqb_rank in H; trivial.
  destruct x as [sx|[]| |[] mx ex], s; cbn in H; try discriminate;
    injection H; intros; f_equal; lia.
Qed.

Lemma leb_ltb_false_eqb x y :
  Float.leb x y = true -> Float.ltb x y = false -> Float.eqb x y = true.
Proof.
  unfold Float.ltb, Float.leb, Float.eqb, SFltb, SFleb, SFeqb.
  now destruct (SFcompare x y) as [[]|].
Qed.

Lemma eqb_sym x y : Float.eqb x y = Float.eqb y x.
Proof.
  destruct (Float.is_nan x) eqn:Hx; [now destruct x, y|].
  destruct (Float.is_nan y) eqn:Hy; [now destruct x, y|].
  unfold Float.eqb, SFeqb. rewrite !SFcompare_rank by trivial.
  destruct (lex3 (rank x) (rank y)) eqn:E.
  - apply lex3_Eq in E. rewrite E. now rewrite (proj2 (lex3_Eq _ _) eq_refl).
  - destruct (lex3 (rank y) (rank x)) eqn:E'; trivial.
    apply lex3_Eq in E'. rewrite E' in E.
    rewrite (proj2 (lex3_Eq _ _) eq_refl) in E. discriminate.
  - destruct (lex3 (rank y) (rank x)) eqn:E'; trivial.
    apply lex3_Eq in E'. rewrite E' in E.
    rewrite (proj2 (lex3_Eq _ _) eq_refl) in E. discriminate.
Qed.

(** ** KDE: clamping *)

Section Clamp.

Local Abbreviation one := (Float.of_Z 1).
Local Abbreviation minus_one := (Float.neg (Float.of_Z 1)).

Lemma one_finite : one = S754_finite false 4503599627370496 (-52).
Proof. vm_compute. reflexivity. Qed.

Lemma minus_one_finite : minus_one = S754_finite true 4503599627370496 (-52).
Proof. vm_compute. reflexivity. Qed.

Lemma minus_one_le_one : Float.leb minus_one one = true.
Proof. vm_compute. reflexivity. Qed.

Lemma min2_one_cases x :
  (Float.ltb x one = true /\ Builtins.min2 one x = x) \/
  (Float.ltb x one = false /\ Builtins.min2 one x = one).
Proof.
  unfold Builtins.min2. destruct (Float.ltb x one); [left | right]; now split.
Qed.

Lemma max2_minus_one_cases x :
  (Float.ltb minus_one x = true /\ Builtins.max2 minus_one x = x) \/
  (Float.ltb minus_one x = false /\ Builtins.max2 minus_one x = minus_one).
Proof.
  unfold Builtins.max2, Float.gtb. change SFltb with Float.ltb.
  destruct (Float.ltb minus_one x); [left | right]; now split.
Qed.

Lemma clamp_in_range x :
  kde_in_range (Builtins.max2 minus_one (Builtins.min2 one x)).
Proof.
  unfold kde_in_range.
  destruct (max2_minus_one_cases (Builtins.min2 one x)) as [[Hlo ->]|[_ ->]].
  - split; [now apply ltb_leb|].
    destruct (min2_one_cases x) as [[Hhi ->]|[_ ->]].
    + now apply ltb_leb.
    + now vm_compute.
  - split; now vm_compute.
Qed.

Lemma clamp_id x :
  kde_in_range x -> Builtins.max2 minus_one (Builtins.min2 one x) = x.
Proof.
  unfold kde_in_range. intros [Hlo Hhi].
  assert (Hmin : Builtins.min2 one x = x).
  { destruct (min2_one_cases x) as [[_ ->]|[Hn ->]]; [reflexivity|].
    pose proof (leb_ltb_false_eqb _ _ Hhi Hn) as Heq.
    rewrite one_finite in Heq |- *. symmetry. now apply eqb_finite_inv. }
  rewrite Hmin.
  destruct (max2_minus_one_cases x) as [[_ ->]|[Hn ->]]; [reflexivity|].
  pose proof (leb_ltb_false_eqb _ _ Hlo Hn) as Heq.
  rewrite eqb_sym in Heq.
  rewrite minus_one_finite in Heq |- *. symmetry. now apply eqb_finite_inv.
Qed.

Lemma clamp_above x :
  Float.ltb one x = true -> Builtins.max2 minus_one (Builtins.min2 one x) = one.
Proof.
  intros H.
  assert (Hmin : Builtins.min2 one x = one).
  { destruct (min2_one_cases x) as [[Hlt _]|[_ ->]]; [|reflexivity].
    pose proof (ltb_trans _ _ _ H Hlt) as Habs. now vm_compute in Habs. }
  rewrite Hmin. now vm_compute.
Qed.

Lemma clamp_below x :
  Float.ltb x minus_one = true ->
  Builtins.max2 minus_one (Builtins.min2 one x) = minus_one.
Proof.
  intros H.
  assert (Hlt : Float.ltb x one = true).
  { apply ltb_leb_trans with minus_one; [exact H | apply minus_one_le_one]. }
  destruct (min2_one_cases x) as [[_ ->]|[Hn _]]; [|congruence].
  destruct (max2_minus_one_cases x) as [[Hgt _]|[_ ->]]; [|reflexivity].
  pose proof (ltb_trans _ _ _ H Hgt) as Habs.
  destruct (ltb_not_nan _ _ H) as [Hx _].
  apply ltb_rank, lex3_Lt in Habs; trivial.
  destruct (rank x) as [[? ?] ?]. lia.
Qed.

Lemma clamp_nan :
  Builtins.max2 minus_one (Builtins.min2 one S754_nan) = one.
Proof. now vm_compute. Qed.

End Clamp.

(** ** Rounding never produces NaN *)

Section NotNan.

Lemma iter_pos_invariant {A : Type} (P : A -> Prop) (f : A -> A) :
  (forall a, P a -> P (f a)) ->
  forall n a, P a -> P (iter_pos f n a).
Proof.
  intros Hf. induction n as [n IH|n IH|]; intros a Ha; simpl; auto.
Qed.

Lemma shr_1_nonneg mrs : 0 <= shr_m mrs -> 0 <= shr_m (shr_1 mrs).
Proof.
  destruct mrs as [[|[p|p|]|p] r s]; simpl; lia.
Qed.

Lemma shr_nonneg mrs e n : 0 <= shr_m mrs -> 0 <= shr_m (fst (shr mrs e n)).
Proof.
  intros H. destruct n as [|p|p]; simpl; trivial.
  apply (iter_pos_invariant (fun a => 0 <= shr_m a)); trivial.
  apply shr_1_nonneg.
Qed.

Lemma shr_record_of_loc_m m l : shr_m (shr_record_of_loc m l) = m.
Proof. now destruct l as [|[]]. Qed.

Lemma round_nearest_even_nonneg m l : 0 <= m -> 0 <= round_nearest_even m l.
Proof.
  intros H. destruct l as [|[]]; simpl; trivial; [|lia].
  destruct (Z.even m); lia.
Qed.

Lemma binary_round_aux_not_nan sx mx ex lx :
  0 <= mx ->
  Float.is_nan (binary_round_aux Float.prec Float.emax sx mx ex lx) = false.
Proof.
  intros Hmx. unfold binary_round_aux, shr_fexp.
  destruct (shr (shr_record_of_loc mx lx) ex _) as [mrs' e'] eqn:E1.
  destruct (shr (shr_record_of_loc (round_nearest_even _ _) loc_Exact) e' _)
    as [mrs'' e''] eqn:E2.
  assert (H1 : 0 <= shr_m mrs').
  { change mrs' with (fst (mrs', e')). rewrite <- E1.
    apply shr_nonneg. now rewrite shr_record_of_loc_m. }
  assert (H2 : 0 <= shr_m mrs'').
  { change mrs'' with (fst (mrs'', e'')). rewrite <- E2.
    apply shr_nonneg. cbn [shr_record_of_loc shr_m].
    now apply round_nearest_even_nonneg. }
  destruct (shr_m mrs'') as [|p|p]; [reflexivity| |lia].
  now destruct (e'' <=? Float.emax - Float.prec).
Qed.

Lemma binary_normalize_not_nan m e szero :
  Float.is_nan (binary_normalize Float.prec Float.emax m e szero) = false.
Proof.
  destruct m as [|p|p]; [reflexivity| |]; unfold binary_normalize, binary_round;
    destruct (shl_align _ _ _) as [mz ez]; now apply binary_round_aux_not_nan.
Qed.

Lemma sub_not_nan x y :
  Float.is_nan x = false -> Float.is_nan y = false ->
  (forall s s', x = S754_infinity s -> y = S754_infinity s' -> s <> s') ->
  Float.is_nan (Float.sub x y) = false.
Proof.
  intros Hx Hy Hinf.
  destruct x as [sx|sx| |sx mx ex], y as [sy|sy| |sy my ey]; try discriminate;
    try reflexivity; unfold Float.sub, SFsub.
  - now destruct sx, sy.
  - specialize (Hinf sx sy eq_refl eq_refl). now destruct sx, sy.
  - apply binary_normalize_not_nan.
Qed.

Lemma abs_not_nan x : Float.is_nan (Float.abs x) = Float.is_nan x.
Proof. now destruct x. Qed.

Lemma sub_nan_r x : Float.sub x S754_nan = S754_nan.
Proof. now destruct x. Qed.

End NotNan.

(** ** The scan of [min] returns the first smallest item *)

Section MinScanFirst.

Context {A : Type} (key : A -> float).

Lemma min_scan_first (l : list A) : forall pre best mid,
  Float.is_nan (key best) = false ->
  (forall y, In y l -> Float.is_nan (key y) = false) ->
  (forall y, In y pre -> Float.ltb (key best) (key y) = true) ->
  (forall y, In y mid -> Float.leb (key best) (key y) = true) ->
  exists l1 l2,
    let r := Builtins.min_scan key best (key best) l in
    pre ++ best :: mid ++ l = l1 ++ r :: l2 /\
    (forall y, In y l1 -> Float.ltb (key r) (key y) = true) /\
    (forall y, In y l2 -> Float.leb (key r) (key y) = true).
Proof.
  induction l as [|x l IH]; intros pre best mid Hb Hl Hpre Hmid.
  - exists pre, mid. cbn. rewrite app_nil_r. auto.
  - cbn [Builtins.min_scan].
    assert (Hx : Float.is_nan (key x) = false) by (apply Hl; now left).
    assert (Hl' : forall y, In y l -> Float.is_nan (key y) = false)
      by (intros y Hy; apply Hl; now right).
    destruct (Float.ltb (key x) (key best)) eqn:E.
    + destruct (IH (pre ++ best :: mid) x [] Hx Hl') as (l1 & l2 & Heq & H1 & H2).
      * intros y Hy. apply in_app_or in Hy as [Hy|[<-|Hy]]; trivial.
        -- now apply ltb_trans with (key best); [|apply Hpre].
        -- now apply ltb_leb_trans with (key best); [|apply Hmid].
      * intros y [].
      * exists l1, l2. split; [|now split].
        rewrite <- Heq. cbn [app]. now rewrite <- app_assoc.
    + destruct (IH pre best (mid ++ [x]) Hb Hl' Hpre) as (l1 & l2 & Heq & H1 & H2).
      * intros y Hy. apply in_app_or in Hy as [Hy|[<-|[]]]; [now apply Hmid|].
        now apply ltb_false_leb.
      * exists l1, l2. split; [|now split].
        rewrite <- Heq. now rewrite <- app_assoc.
Qed.

End MinScanFirst.

Section TieBreak.

Import WindowsPlatform.

Lemma tick_map_sorted : StronglySorted (fun a b : Z * float => fst a < fst b) _tick_map.
Proof.
  unfold _tick_map. repeat (constructor; [|repeat (constructor; [cbn [fst]; lia|]); constructor]).
  constructor.
Qed.

Lemma sorted_split_after {B : Type} (R : B -> B -> Prop) (l1 l2 : list B) r :
  StronglySorted R (l1 ++ r :: l2) -> Forall (R r) l2.
Proof.
  induction l1 as [|a l1 IH]; cbn [app]; intros H; inversion H; subst; auto.
Qed.

Lemma tick_map_finite kv : In kv _tick_map ->
  exists m e, snd kv = S754_finite false m e.
Proof.
  intros Hin.
  assert (Hall : forallb (fun kv => match snd kv with
                                    | S754_finite false _ _ => true
                                    | _ => false end) _tick_map = true)
    by (vm_compute; reflexivity).
  pose proof (tick_map_forallb _ Hall kv Hin) as H. cbv beta in H.
  destruct kv as [k x]. cbn [snd] in *.
  destruct x as [s|s| |[|] m e]; try discriminate. now exists m, e.
Qed.

Lemma distance_not_nan m kv :
  In kv _tick_map -> Float.is_nan (multiplier m) = false ->
  Float.is_nan (distance m kv) = false.
Proof.
  intros Hin Hm. unfold distance. rewrite abs_not_nan.
  destruct (tick_map_finite kv Hin) as (mx & ex & ->).
  apply sub_not_nan; trivial. discriminate.
Qed.

Lemma distance_nan m kv :
  Float.is_nan (multiplier m) = true -> distance m kv = S754_nan.
Proof.
  unfold distance. destruct (multiplier m); try discriminate.
  now rewrite sub_nan_r.
Qed.

(** For a multiplier that is not NaN the scan returns an entry at the
    smallest distance, and of the entries at that distance the one with the
    smallest tick. *)
Lemma from_intermediate_first m :
  Float.is_nan (multiplier m) = false ->
  exists r xr,
    from_intermediate m = Return (WindowsSensitivity r) /\
    In (r, xr) _tick_map /\
    (forall kv, In kv _tick_map ->
                Float.leb (distance m (r, xr)) (distance m kv) = true) /\
    (forall kv, In kv _tick_map ->
                Float.eqb (distance m kv) (distance m (r, xr)) = true ->
                r <= fst kv).
Proof.
  intros Hm. unfold from_intermediate, Builtins.items.
  destruct _tick_map as [|best l] eqn:Etab; [discriminate|].
  cbn [Builtins.min_key bind].
  assert (Hnn : forall y, In y (best :: l) -> Float.is_nan (distance m y) = false).
  { intros y Hy. apply distance_not_nan; trivial. now rewrite Etab. }
  destruct (min_scan_first (distance m) l [] best [])
    as (l1 & l2 & Heq & H1 & H2).
  - apply Hnn. now left.
  - intros y Hy. apply Hnn. now right.
  - intros y [].
  - intros y [].
  - cbn [app] in Heq.
    set (r := Builtins.min_scan (distance m) best (distance m best) l) in *.
    cbv zeta in Heq, H1, H2.
    assert (Hr : In r (best :: l)) by (rewrite Heq; apply in_elt).
    exists (fst r), (snd r). rewrite <- surjective_pairing.
    split; [|split; [exact Hr|split]].
    + apply WindowsSensitivity_init_ok, tick_map_keys. now rewrite Etab.
    + intros kv Hkv. rewrite Heq in Hkv.
      apply in_app_or in Hkv as [Hkv|[<-|Hkv]].
      * now apply ltb_leb, H1.
      * apply leb_refl. now apply Hnn.
      * now apply H2.
    + intros kv Hkv Heqb. rewrite Heq in Hkv.
      apply in_app_or in Hkv as [Hkv|[<-|Hkv]].
      * apply H1 in Hkv. rewrite eqb_sym in Heqb.
        revert Hkv Heqb. unfold Float.ltb, Float.eqb, SFltb, SFeqb.
        now destruct (SFcompare (distance m r) (distance m kv)) as [[]|].
      * lia.
      * pose proof tick_map_sorted as Hs. rewrite Etab, Heq in Hs.
        apply sorted_split_after in Hs. rewrite Forall_forall in Hs.
        specialize (Hs _ Hkv). cbv beta in Hs. lia.
Qed.

End TieBreak.

(** ** Digits and shifts *)

Section Digits.

Lemma digits2_pos_bounds (m : positive) :
  2 ^ (Z.pos (digits2_pos m) - 1) <= Z.pos m < 2 ^ Z.pos (digits2_pos m).
Proof.
  induction m as [m IH|m IH|]; cbn [digits2_pos].
  - rewrite Pos2Z.inj_succ.
    replace (Z.succ (Z.pos (digits2_pos m)) - 1) with (Z.succ (Z.pos (digits2_pos m) - 1)) by lia.
    rewrite !Z.pow_succ_r by lia. lia.
  - rewrite Pos2Z.inj_succ.
    replace (Z.succ (Z.pos (digits2_pos m)) - 1) with (Z.succ (Z.pos (digits2_pos m) - 1)) by lia.
    rewrite !Z.pow_succ_r by lia. lia.
  - cbn. lia.
Qed.

Lemma pow2_pos n : 0 <= n -> 0 < 2 ^ n.
Proof. intros. apply Z.pow_pos_nonneg; lia. Qed.

Lemma pow2_le a b : 0 <= a <= b -> 2 ^ a <= 2 ^ b.
Proof. intros. apply Z.pow_le_mono_r; lia. Qed.

Lemma pow2_lt a b : 0 <= a < b -> 2 ^ a < 2 ^ b.
Proof. intros. apply Z.pow_lt_mono_r; lia. Qed.

Lemma pow2_lt_inv a b : 0 <= a -> 0 <= b -> 2 ^ a < 2 ^ b -> a < b.
Proof.
  intros Ha Hb H. destruct (Z.lt_ge_cases a b) as [|Hge]; trivial.
  pose proof (pow2_le b a). lia.
Qed.

(** The number of digits is determined by the binade. *)
Lemma digits2_pos_unique (m : positive) d :
  0 < d -> 2 ^ (d - 1) <= Z.pos m < 2 ^ d -> Z.pos (digits2_pos m) = d.
Proof.
  intros Hd [Hlo Hhi]. pose proof (digits2_pos_bounds m) as [Hlo' Hhi'].
  assert (d - 1 < Z.pos (digits2_pos m)) by (apply pow2_lt_inv; lia).
  assert (Z.pos (digits2_pos m) - 1 < d) by (apply pow2_lt_inv; lia).
  lia.
Qed.

Lemma iter_xO (m d : positive) :
  Z.pos (Pos.iter xO m d) = Z.pos m * 2 ^ Z.pos d.
Proof.
  induction d as [|d IH] using Pos.peano_ind.
  - cbn [Pos.iter]. lia.
  - rewrite Pos.iter_succ, Pos2Z.inj_succ, Z.pow_succ_r by lia.
    rewrite Pos2Z.inj_xO, IH. lia.
Qed.

End Digits.

(** ** Shifting right with round and sticky bits *)

Section ShiftRight.

Lemma iter_pos_nat {A : Type} (f : A -> A) (n : positive) (a : A) :
  iter_pos f n a = Nat.iter (Pos.to_nat n) f a.
Proof.
  revert a. induction n as [n IH|n IH|]; intros a; cbn [iter_pos].
  - rewrite Pos2Nat.inj_xI, !IH.
    replace (S (2 * Pos.to_nat n)) with (Pos.to_nat n + (Pos.to_nat n + 1))%nat by lia.
    now rewrite !Nat.iter_add.
  - rewrite Pos2Nat.inj_xO, !IH.
    replace (2 * Pos.to_nat n)%nat with (Pos.to_nat n + Pos.to_nat n)%nat by lia.
    now rewrite Nat.iter_add.
  - reflexivity.
Qed.


Lemma shifted_0 M : shifted M 0 (Build_shr_record M false false).
Proof.
  unfold shifted, location_of. cbn [shr_m loc_of_shr_record].
  rewrite Z.pow_0_r, Z.div_1_r, Z.mod_1_r. now split.
Qed.

Lemma shr_1_div2 mrs : 0 <= shr_m mrs -> shr_m (shr_1 mrs) = shr_m mrs / 2.
Proof.
  destruct mrs as [[|[p|p|]|p] r s]; cbn [shr_m shr_1]; try lia; intros _.
  - reflexivity.
  - apply Z.div_unique with 1; lia.
  - apply Z.div_unique with 0; lia.
  - reflexivity.
Qed.

Lemma shr_1_bits mrs :
  0 <= shr_m mrs ->
  shr_r (shr_1 mrs) = Z.odd (shr_m mrs) /\
  shr_s (shr_1 mrs) = (shr_r mrs || shr_s mrs).
Proof.
  destruct mrs as [[|[p|p|]|p] r s]; cbn [shr_m shr_r shr_s shr_1]; try lia;
    intros _; now split.
Qed.

Lemma shifted_step M n mrs :
  0 <= M -> 0 <= n -> shifted M n mrs -> shifted M (n + 1) (shr_1 mrs).
Proof.
  intros HM Hn [Hm Hloc].
  assert (Hp : 0 < 2 ^ n) by now apply pow2_pos.
  assert (Hq : 0 <= shr_m mrs) by (rewrite Hm; apply Z.div_pos; lia).
  pose proof (shr_1_div2 mrs Hq) as Hm'.
  destruct (shr_1_bits mrs Hq) as [Hr' Hs'].
  assert (Hpow : 2 ^ (n + 1) = 2 ^ n * 2) by (rewrite Z.pow_add_r by lia; lia).
  split.
  - rewrite Hm', Hm, Hpow. apply Z.div_div; lia.
  - assert (Hsticky : (shr_r mrs || shr_s mrs) = negb (M mod 2 ^ n =? 0)).
    { revert Hloc. unfold location_of.
      destruct mrs as [m [] []]; cbn [loc_of_shr_record shr_r shr_s orb];
        destruct (M mod 2 ^ n =? 0); cbn [negb]; congruence. }
    assert (Hrem : M mod 2 ^ (n + 1) = (M / 2 ^ n) mod 2 * 2 ^ n + M mod 2 ^ n).
    { rewrite Hpow, Z.rem_mul_r; [ring | lia | lia]. }
    pose proof (Z.mod_pos_bound M (2 ^ n) Hp) as Hb.
    unfold location_of. rewrite Hrem, Hpow.
    destruct (shr_1 mrs) as [m' r' s']. cbn [shr_r shr_s shr_m] in *.
    cbn [loc_of_shr_record]. rewrite Hr', Hs', Hsticky, Hm.
    rewrite Zmod_odd.
    destruct (Z.odd (M / 2 ^ n));
      destruct (Z.eqb_spec (M mod 2 ^ n) 0) as [E|E]; cbn [negb].
    + destruct (Z.eqb_spec (1 * 2 ^ n + M mod 2 ^ n) 0); [lia|].
      f_equal. symmetry. apply Z.compare_eq_iff. lia.
    + destruct (Z.eqb_spec (1 * 2 ^ n + M mod 2 ^ n) 0); [lia|].
      f_equal. symmetry. apply Z.compare_gt_iff. lia.
    + destruct (Z.eqb_spec (0 * 2 ^ n + M mod 2 ^ n) 0); [reflexivity|lia].
    + destruct (Z.eqb_spec (0 * 2 ^ n + M mod 2 ^ n) 0); [lia|].
      f_equal. symmetry. apply Z.compare_lt_iff. lia.
Qed.

Lemma shifted_iter M (k : nat) :
  0 <= M ->
  shifted M (Z.of_nat k) (Nat.iter k shr_1 (Build_shr_record M false false)).
Proof.
  intros HM. induction k as [|k IH].
  - apply shifted_0.
  - rewrite Nat2Z.inj_succ, <- Z.add_1_r. cbn [Nat.iter].
    apply shifted_step; trivial. lia.
Qed.

Lemma shr_shifted M e (n : Z) :
  0 <= M -> 0 < n ->
  shifted M n (fst (shr (Build_shr_record M false false) e n)) /\
  snd (shr (Build_shr_record M false false) e n) = e + n.
Proof.
  intros HM Hn. destruct n as [|p|p]; try lia. cbn [shr fst snd].
  split; [|reflexivity].
  rewrite iter_pos_nat, <- positive_nat_Z. now apply shifted_iter.
Qed.

Lemma shr_nop mrs e n : n <= 0 -> shr mrs e n = (mrs, e).
Proof. destruct n; trivial; lia. Qed.

End ShiftRight.

(** ** Rounding to nearest *)

Section Nearest.

Lemma rne_bounds M n :
  0 <= M -> 0 <= n ->
  M / 2 ^ n <= rne M n <= M / 2 ^ n + 1 /\
  2 * Z.abs (rne M n * 2 ^ n - M) <= 2 ^ n.
Proof.
  intros HM Hn. unfold rne, location_of.
  assert (Hp : 0 < 2 ^ n) by now apply pow2_pos.
  pose proof (Z.div_mod M (2 ^ n) ltac:(lia)) as Hdm.
  pose proof (Z.mod_pos_bound M (2 ^ n) Hp) as Hb.
  set (q := M / 2 ^ n) in *. set (r := M mod 2 ^ n) in *.
  destruct (Z.eqb_spec r 0) as [E|E]; cbn [round_nearest_even].
  - split; [lia|]. replace (q * 2 ^ n - M) with 0 by lia. cbn. lia.
  - destruct (Z.compare_spec (2 * r) (2 ^ n)) as [Hc|Hc|Hc].
    + destruct (Z.even q); split; try lia.
    + split; lia.
    + split; lia.
Qed.

Lemma rne_exact M n q :
  0 <= n -> M = q * 2 ^ n -> rne M n = q.
Proof.
  intros Hn ->. unfold rne, location_of.
  assert (Hp : 0 < 2 ^ n) by now apply pow2_pos.
  rewrite Z.mod_mul, Z.div_mul by lia. reflexivity.
Qed.

End Nearest.

Section Format.

Lemma fexp_eq e : fexp Float.prec Float.emax e = Z.max (e - 53) (-1074).
Proof. reflexivity. Qed.

Lemma bounded_inv m e :
  bounded Float.prec Float.emax m e = true ->
  Z.max (Z.pos (digits2_pos m) + e - 53) (-1074) = e /\ e <= 971.
Proof.
  unfold bounded, canonical_mantissa. rewrite fexp_eq.
  intros H. apply andb_true_iff in H as [H1 H2].
  apply Z.eqb_eq in H1. apply Z.leb_le in H2. split; [exact H1 | exact H2].
Qed.

Lemma bounded_intro m e :
  Z.max (Z.pos (digits2_pos m) + e - 53) (-1074) = e -> e <= 971 ->
  bounded Float.prec Float.emax m e = true.
Proof.
  intros H1 H2. unfold bounded, canonical_mantissa. rewrite fexp_eq.
  apply andb_true_iff. split; [now apply Z.eqb_eq | now apply Z.leb_le].
Qed.

Lemma ulp_exp_nonneg S : 0 <= ulp_exp S.
Proof. unfold ulp_exp. lia. Qed.

Lemma ulp_exp_small S : Z.abs S < 2 ^ 53 -> ulp_exp S = 0.
Proof.
  intros H. unfold ulp_exp.
  destruct (Z.eq_dec (Z.abs S) 0) as [->|Hne]; [reflexivity|].
  assert (Z.log2 (Z.abs S) < 53) by (apply Z.log2_lt_pow2; lia).
  lia.
Qed.

Lemma ulp_exp_binade S j :
  0 <= j -> 2 ^ (52 + j) <= Z.abs S < 2 ^ (53 + j) -> ulp_exp S = j.
Proof.
  intros Hj [Hlo Hhi]. unfold ulp_exp.
  rewrite (Z.log2_unique (Z.abs S) (52 + j)); [lia | lia |].
  replace (Z.succ (52 + j)) with (53 + j) by lia. now split.
Qed.

(** The digit count of [M] fixes the spacing at [M * 2^(e+1074)]. *)
Lemma ulp_exp_digits (m : positive) e :
  -1074 <= e ->
  ulp_exp (Z.pos m * 2 ^ (e + 1074))
  = Z.max (Z.pos (digits2_pos m) + e - 53) (-1074) + 1074.
Proof.
  intros He. pose proof (digits2_pos_bounds m) as [Hlo Hhi].
  set (d := Z.pos (digits2_pos m)) in *.
  assert (Hd : 0 < d) by (unfold d; lia).
  assert (Hp : 0 < 2 ^ (e + 1074)) by (apply pow2_pos; lia).
  unfold ulp_exp. rewrite Z.abs_eq by nia.
  rewrite (Z.log2_unique _ (d - 1 + (e + 1074))); [lia | lia |].
  replace (Z.succ (d - 1 + (e + 1074))) with (d + (e + 1074)) by lia.
  rewrite (Z.pow_add_r 2 (d - 1)), (Z.pow_add_r 2 d) by lia. split.
  - apply Z.mul_le_mono_nonneg_r; lia.
  - apply Z.mul_lt_mono_pos_r; lia.
Qed.

Lemma div_pow2_bounds M a b n :
  0 <= a -> 0 <= b -> 0 <= n ->
  2 ^ (a + n) <= M < 2 ^ (b + n) ->
  2 ^ a <= M / 2 ^ n < 2 ^ b.
Proof.
  intros Ha Hb Hn [Hlo Hhi].
  assert (Hp : 0 < 2 ^ n) by now apply pow2_pos.
  rewrite Z.pow_add_r in Hlo, Hhi by lia. split.
  - apply Z.div_le_lower_bound; lia.
  - apply Z.div_lt_upper_bound; lia.
Qed.

End Format.

(** ** What [binary_round] returns *)

Section BinaryRound.

Local Abbreviation bra := (binary_round_aux Float.prec Float.emax).

(** No digit to drop: the mantissa is kept. *)
Lemma binary_round_aux_keep s (m : positive) e :
  Z.max (Z.pos (digits2_pos m) + e - 53) (-1074) = e -> e <= 971 ->
  bra s (Z.pos m) e loc_Exact = S754_finite s m e.
Proof.
  intros Hc He. unfold binary_round_aux, shr_fexp.
  cbn [Zdigits2 shr_record_of_loc]. rewrite fexp_eq, Hc, Z.sub_diag.
  cbn [shr shr_m loc_of_shr_record round_nearest_even Zdigits2 shr_record_of_loc].
  rewrite fexp_eq, Hc, Z.sub_diag. cbn [shr shr_m].
  replace (Float.emax - Float.prec) with 971 by reflexivity.
  now rewrite (proj2 (Z.leb_le e 971) He).
Qed.

(** Digits to drop, in the normal range: the mantissa is rounded to 53
    digits, and renormalized when rounding carries into a 54th digit. *)
Lemma binary_round_aux_drop s (m : positive) e n :
  0 < n -> n = Z.pos (digits2_pos m) - 53 -> -1074 <= e -> e + n <= 970 ->
  exists m' e',
    bra s (Z.pos m) e loc_Exact = S754_finite s m' e' /\
    bounded Float.prec Float.emax m' e' = true /\
    e + n <= e' /\
    Z.pos m' * 2 ^ (e' - (e + n)) = rne (Z.pos m) n.
Proof.
  intros Hn Hd He Hmax.
  pose proof (digits2_pos_bounds m) as Hdig.
  set (d := Z.pos (digits2_pos m)) in *.
  unfold binary_round_aux, shr_fexp. cbn [Zdigits2 shr_record_of_loc].
  fold d. rewrite fexp_eq.
  replace (Z.max (d + e - 53) (-1074) - e) with n by lia.
  destruct (shr_shifted (Z.pos m) e n ltac:(lia) Hn) as [[Hm Hloc] He'].
  destruct (shr _ e n) as [mrs' e'']. cbn [fst snd] in Hm, Hloc, He'. subst e''.
  rewrite Hm, Hloc. fold (rne (Z.pos m) n).
  destruct (rne_bounds (Z.pos m) n ltac:(lia) ltac:(lia)) as [[Hq1 Hq2] _].
  assert (Hq : 2 ^ 52 <= Z.pos m / 2 ^ n < 2 ^ 53).
  { apply div_pow2_bounds; try lia.
    replace (52 + n) with (d - 1) by lia. replace (53 + n) with d by lia.
    exact Hdig. }
  set (R := rne (Z.pos m) n) in *.
  assert (HR : 2 ^ 52 <= R <= 2 ^ 53) by lia.
  destruct R as [|r|r] eqn:ER; try lia.
  cbn [shr_record_of_loc Zdigits2]. rewrite fexp_eq.
  destruct (Z.eq_dec (Z.pos r) (2 ^ 53)) as [Hcarry|Hnc].
  - assert (Hdr : Z.pos (digits2_pos r) = 54).
    { apply digits2_pos_unique; [lia|]. rewrite Hcarry. cbn. lia. }
    rewrite Hdr.
    replace (Z.max (54 + (e + n) - 53) (-1074) - (e + n)) with 1 by lia.
    injection Hcarry as ->.
    cbn [shr iter_pos shr_1 shr_m fst snd].
    replace (Float.emax - Float.prec) with 971 by reflexivity.
    rewrite (proj2 (Z.leb_le (e + n + 1) 971)) by lia.
    eexists _, _. split; [reflexivity|]. split; [|split].
    + apply bounded_intro; [|lia]. cbn [digits2_pos Pos.succ]. lia.
    + lia.
    + replace (e + n + 1 - (e + n)) with 1 by lia. reflexivity.
  - assert (Hdr : Z.pos (digits2_pos r) = 53).
    { apply digits2_pos_unique; lia. }
    rewrite Hdr.
    replace (Z.max (53 + (e + n) - 53) (-1074) - (e + n)) with 0 by lia.
    cbn [shr shr_m].
    replace (Float.emax - Float.prec) with 971 by reflexivity.
    rewrite (proj2 (Z.leb_le (e + n) 971)) by lia.
    exists r, (e + n). split; [reflexivity|]. split; [|split].
    + apply bounded_intro; [|lia]. rewrite Hdr. lia.
    + lia.
    + rewrite Z.sub_diag. cbn. lia.
Qed.

Lemma shl_align_fst (m : positive) e e' :
  e' <= e -> Z.pos (fst (shl_align m e e')) = Z.pos m * 2 ^ (e - e').
Proof.
  intros H. unfold shl_align.
  destruct (e' - e) as [|p|p] eqn:E; cbn [fst]; try lia.
  - replace (e - e') with 0 by lia. cbn. lia.
  - rewrite iter_xO. f_equal. f_equal. lia.
Qed.

Lemma shl_align_snd (m : positive) e e' :
  e' <= e -> snd (shl_align m e e') = e'.
Proof.
  intros H. unfold shl_align.
  destruct (e' - e) as [|p|p] eqn:E; cbn [snd]; lia.
Qed.

Lemma shl_align_nop (m : positive) e e' :
  e <= e' -> shl_align m e e' = (m, e).
Proof.
  intros H. unfold shl_align. destruct (e' - e) as [|p|p] eqn:E; trivial; lia.
Qed.

(** The float that [binary_round] returns for [m * 2^e] lies on the grid
    of spacing [ulp_exp] and is within half a spacing of that value. *)
Lemma binary_round_spec s (m : positive) e :
  -1074 <= e ->
  let S := Z.pos m * 2 ^ (e + 1074) in
  ulp_exp S <= 2044 ->
  exists m' e',
    binary_round Float.prec Float.emax s m e = S754_finite s m' e' /\
    bounded Float.prec Float.emax m' e' = true /\
    exists R, Z.pos m' * 2 ^ (e' + 1074) = R * 2 ^ ulp_exp S /\
              2 * Z.abs (R * 2 ^ ulp_exp S - S) <= 2 ^ ulp_exp S.
Proof.
  intros He S Hk. unfold S in *. clear S.
  rewrite ulp_exp_digits in * by trivial.
  pose proof (digits2_pos_bounds m) as Hdig.
  set (d := Z.pos (digits2_pos m)) in *.
  set (e1 := Z.max (d + e - 53) (-1074)) in *.
  unfold binary_round. rewrite fexp_eq. fold d e1.
  destruct (Z_le_gt_dec e1 e) as [Hle|Hgt].
  - (* enough room: the value is kept *)
    pose proof (shl_align_fst m e e1 Hle) as Hf.
    pose proof (shl_align_snd m e e1 Hle) as Hs.
    destruct (shl_align m e e1) as [mz ez]. cbn [fst snd] in Hf, Hs. subst ez.
    assert (Hp : 0 < 2 ^ (e - e1)) by (apply pow2_pos; lia).
    assert (Hdz : Z.pos (digits2_pos mz) = d + (e - e1)).
    { apply digits2_pos_unique; [lia|]. rewrite Hf.
      replace (d + (e - e1) - 1) with (d - 1 + (e - e1)) by lia.
      rewrite (Z.pow_add_r 2 (d - 1)), (Z.pow_add_r 2 d) by lia. split.
      - apply Z.mul_le_mono_nonneg_r; lia.
      - apply Z.mul_lt_mono_pos_r; lia. }
    rewrite binary_round_aux_keep; [|rewrite Hdz; lia|lia].
    exists mz, e1. split; [reflexivity|]. split.
    + apply bounded_intro; [rewrite Hdz|]; lia.
    + exists (Z.pos mz). split; [reflexivity|].
      rewrite Hf, <- Z.mul_assoc, <- Z.pow_add_r by lia.
      replace (e - e1 + (e1 + 1074)) with (e + 1074) by lia.
      rewrite Z.sub_diag. cbn [Z.abs Z.mul].
      pose proof (pow2_pos (e1 + 1074)). lia.
  - (* digits are dropped *)
    rewrite shl_align_nop by lia.
    destruct (binary_round_aux_drop s m e (e1 - e)) as (m' & e' & Hr & Hb & Hle' & Hv);
      try lia.
    rewrite Hr. exists m', e'. split; [reflexivity|]. split; [exact Hb|].
    replace (e + (e1 - e)) with e1 in * by lia.
    exists (rne (Z.pos m) (e1 - e)). split.
    + rewrite <- Hv, <- Z.mul_assoc, <- Z.pow_add_r by lia.
      f_equal. f_equal. lia.
    + destruct (rne_bounds (Z.pos m) (e1 - e) ltac:(lia) ltac:(lia)) as [_ Herr].
      assert (Hp : 0 < 2 ^ (e + 1074)) by (apply pow2_pos; lia).
      replace (e1 + 1074) with (e1 - e + (e + 1074)) by lia.
      rewrite Z.pow_add_r by lia.
      set (P := 2 ^ (e + 1074)) in *. set (Q := 2 ^ (e1 - e)) in *.
      set (R := rne (Z.pos m) (e1 - e)) in *.
      replace (R * (Q * P) - Z.pos m * P) with ((R * Q - Z.pos m) * P) by ring.
      rewrite Z.abs_mul, (Z.abs_eq P) by lia. nia.
Qed.

End BinaryRound.

(** ** What the arithmetic operations return *)

Section Operations.

Lemma ulp_exp_opp S : ulp_exp (- S) = ulp_exp S.
Proof. unfold ulp_exp. now rewrite Z.abs_opp. Qed.

Lemma ulp_exp_bound S j : 0 <= j -> Z.abs S < 2 ^ (53 + j) -> ulp_exp S <= j.
Proof.
  intros Hj H. unfold ulp_exp.
  destruct (Z.eq_dec (Z.abs S) 0) as [->|Hne]; [cbn; lia|].
  assert (Z.log2 (Z.abs S) < 53 + j) by (apply Z.log2_lt_pow2; lia).
  lia.
Qed.

Lemma valid_exponent s m e :
  Float.valid (S754_finite s m e) = true -> -1074 <= e <= 971.
Proof. intros H. apply bounded_inv in H. lia. Qed.

(** A valid float lies on its own grid. *)
Lemma valid_ulp_exp s m e :
  Float.valid (S754_finite s m e) = true ->
  ulp_exp (scaled (S754_finite s m e)) = e + 1074.
Proof.
  intros H. pose proof (valid_exponent _ _ _ H) as He.
  apply bounded_inv in H as [Hc _]. cbn [scaled].
  assert (Habs : ulp_exp (cond_Zopp s (Z.pos m) * 2 ^ (e + 1074))
                 = ulp_exp (Z.pos m * 2 ^ (e + 1074))).
  { destruct s; cbn [cond_Zopp]; [|reflexivity].
    now rewrite <- ulp_exp_opp, <- Z.mul_opp_l, Z.opp_involutive. }
  rewrite Habs, ulp_exp_digits by lia. lia.
Qed.

Lemma rounds_to_self x :
  Float.valid x = true -> finite_or_zero x = true -> rounds_to (scaled x) x.
Proof.
  intros Hv Hf. split; [exact Hv|]. split; [exact Hf|].
  rewrite Z.sub_diag. cbn [Z.abs]. split.
  - destruct x as [s|s| |s m e]; try discriminate.
    + apply Z.divide_0_r.
    + rewrite valid_ulp_exp by trivial. cbn [scaled].
      apply Z.divide_factor_r.
  - pose proof (pow2_pos (ulp_exp (scaled x)) (ulp_exp_nonneg _)). lia.
Qed.

Lemma rounds_to_zero s : rounds_to 0 (S754_zero s).
Proof. now apply (rounds_to_self (S754_zero s)). Qed.

Lemma binary_normalize_spec M e szero :
  -1074 <= e ->
  Z.abs (M * 2 ^ (e + 1074)) < 2 ^ 2097 ->
  rounds_to (M * 2 ^ (e + 1074)) (binary_normalize Float.prec Float.emax M e szero).
Proof.
  intros He Hov.
  assert (Hk : ulp_exp (M * 2 ^ (e + 1074)) <= 2044)
    by (apply ulp_exp_bound; [lia | exact Hov]).
  destruct M as [|m|m]; cbn [binary_normalize].
  - apply rounds_to_zero.
  - destruct (binary_round_spec false m e He Hk) as (m' & e' & -> & Hb & R & HV & Herr).
    split; [exact Hb|]. split; [reflexivity|].
    cbn [scaled cond_Zopp]. rewrite HV. split; [apply Z.divide_factor_r | exact Herr].
  - assert (Hopp : Z.neg m * 2 ^ (e + 1074) = - (Z.pos m * 2 ^ (e + 1074))) by lia.
    unfold rounds_to. rewrite Hopp, ulp_exp_opp in *.
    destruct (binary_round_spec true m e He Hk) as (m' & e' & -> & Hb & R & HV & Herr).
    split; [exact Hb|]. split; [reflexivity|].
    cbn [scaled cond_Zopp]. rewrite Z.mul_opp_l, HV. split.
    + apply Z.divide_opp_r, Z.divide_factor_r.
    + replace (- (R * 2 ^ ulp_exp (Z.pos m * 2 ^ (e + 1074))) - - (Z.pos m * 2 ^ (e + 1074)))
        with (- (R * 2 ^ ulp_exp (Z.pos m * 2 ^ (e + 1074)) - Z.pos m * 2 ^ (e + 1074)))
        by ring.
      now rewrite Z.abs_opp.
Qed.

(** The mantissa aligned to the smaller exponent carries the same value. *)
Lemma aligned_scaled s (m : positive) e ez :
  -1074 <= ez <= e ->
  cond_Zopp s (Z.pos (fst (shl_align m e ez))) * 2 ^ (ez + 1074)
  = scaled (S754_finite s m e).
Proof.
  intros H. rewrite shl_align_fst by lia. cbn [scaled].
  replace (e + 1074) with (e - ez + (ez + 1074)) by lia.
  rewrite (Z.pow_add_r 2 (e - ez) (ez + 1074)) by lia.
  destruct s; cbn [cond_Zopp]; ring.
Qed.

Lemma add_spec x y :
  Float.valid x = true -> finite_or_zero x = true ->
  Float.valid y = true -> finite_or_zero y = true ->
  Z.abs (scaled x + scaled y) < 2 ^ 2097 ->
  rounds_to (scaled x + scaled y) (Float.add x y).
Proof.
  intros Hvx Hfx Hvy Hfy Hov.
  destruct x as [sx|sx| |sx mx ex], y as [sy|sy| |sy my ey]; try discriminate.
  - destruct sx, sy; apply rounds_to_zero.
  - cbn [scaled Z.add]. now apply (rounds_to_self (S754_finite sy my ey)).
  - cbn [scaled]. rewrite Z.add_0_r. now apply (rounds_to_self (S754_finite sx mx ex)).
  - pose proof (valid_exponent _ _ _ Hvx). pose proof (valid_exponent _ _ _ Hvy).
    unfold Float.add, SFadd.
    rewrite <- (aligned_scaled sx mx ex (Z.min ex ey)) in * by lia.
    rewrite <- (aligned_scaled sy my ey (Z.min ex ey)) in * by lia.
    rewrite <- Z.mul_add_distr_r in *.
    apply binary_normalize_spec; [lia | exact Hov].
Qed.

Lemma sub_spec x y :
  Float.valid x = true -> finite_or_zero x = true ->
  Float.valid y = true -> finite_or_zero y = true ->
  Z.abs (scaled x - scaled y) < 2 ^ 2097 ->
  rounds_to (scaled x - scaled y) (Float.sub x y).
Proof.
  intros Hvx Hfx Hvy Hfy Hov.
  destruct x as [sx|sx| |sx mx ex], y as [sy|sy| |sy my ey]; try discriminate.
  - destruct sx, sy; apply rounds_to_zero.
  - replace (scaled (S754_zero sx) - scaled (S754_finite sy my ey))
      with (scaled (S754_finite (negb sy) my ey))
      by (cbn [scaled]; destruct sy; cbn [negb cond_Zopp]; lia).
    now apply (rounds_to_self (S754_finite (negb sy) my ey)).
  - cbn [scaled]. rewrite Z.sub_0_r. now apply (rounds_to_self (S754_finite sx mx ex)).
  - pose proof (valid_exponent _ _ _ Hvx). pose proof (valid_exponent _ _ _ Hvy).
    unfold Float.sub, SFsub.
    rewrite <- (aligned_scaled sx mx ex (Z.min ex ey)) in * by lia.
    rewrite <- (aligned_scaled sy my ey (Z.min ex ey)) in * by lia.
    rewrite <- Z.mul_sub_distr_r in *.
    apply binary_normalize_spec; [lia | exact Hov].
Qed.

(** Two points of one grid that are within half a spacing coincide. *)
Lemma grid_eq G a b :
  0 < G -> (G | a) -> (G | b) -> 2 * Z.abs (a - b) <= G -> a = b.
Proof.
  intros HG [za ->] [zb ->] H.
  replace (za * G - zb * G) with ((za - zb) * G) in H by ring.
  rewrite Z.abs_mul, (Z.abs_eq G) in H by lia.
  assert (Z.abs (za - zb) = 0) by nia.
  f_equal. lia.
Qed.

Lemma grid_ge G a b : 0 < G -> (G | a) -> (G | b) -> b - G < a -> b <= a.
Proof.
  intros HG [za ->] [zb ->] H.
  assert (Hlt : zb - 1 < za).
  { apply (Z.mul_lt_mono_pos_r G); trivial. lia. }
  apply Z.mul_le_mono_nonneg_r; lia.
Qed.

Lemma grid_le G a b : 0 < G -> (G | a) -> (G | b) -> a < b + G -> a <= b.
Proof.
  intros HG [za ->] [zb ->] H.
  assert (Hlt : za < zb + 1).
  { apply (Z.mul_lt_mono_pos_r G); trivial. lia. }
  apply Z.mul_le_mono_nonneg_r; lia.
Qed.

Lemma pow2_divide a b : 0 <= a <= b -> (2 ^ a | 2 ^ b).
Proof.
  intros H. exists (2 ^ (b - a)). rewrite <- Z.pow_add_r by lia. f_equal. lia.
Qed.

(** A value that is itself representable is returned unchanged. *)
Lemma rounds_to_exact S r j :
  rounds_to S r -> 0 <= j -> (2 ^ j | S) -> Z.abs S <= 2 ^ (53 + j) ->
  scaled r = S.
Proof.
  intros (_ & _ & Hgrid & Herr) Hj Hdiv Hb.
  pose proof (ulp_exp_nonneg S) as Hk.
  apply (grid_eq (2 ^ ulp_exp S)); trivial; [now apply pow2_pos|].
  destruct (Z.eq_dec (Z.abs S) (2 ^ (53 + j))) as [Heq|Hne].
  - rewrite (ulp_exp_binade S (j + 1)); [|lia|].
    + assert (Hd : (2 ^ (j + 1) | Z.abs S)).
      { rewrite Heq. apply pow2_divide. lia. }
      exact (proj1 (Z.divide_abs_r _ _) Hd).
    + replace (52 + (j + 1)) with (53 + j) by lia. split; [lia|].
      rewrite Heq. apply pow2_lt. lia.
  - apply Z.divide_trans with (2 ^ j); trivial.
    apply pow2_divide. split; trivial. apply ulp_exp_bound; lia.
Qed.

End Operations.

(** ** Comparison of valid floats is comparison of their values *)

Section Compare.

Lemma bounded_lt_of_exp m1 e1 m2 e2 :
  bounded Float.prec Float.emax m1 e1 = true ->
  bounded Float.prec Float.emax m2 e2 = true ->
  e1 < e2 ->
  Z.pos m1 * 2 ^ (e1 + 1074) < Z.pos m2 * 2 ^ (e2 + 1074).
Proof.
  intros H1 H2 Hlt.
  apply bounded_inv in H1 as [H1 _], H2 as [H2 _].
  pose proof (digits2_pos_bounds m1) as [_ Hhi].
  pose proof (digits2_pos_bounds m2) as [Hlo _].
  assert (Hd1 : Z.pos (digits2_pos m1) <= 53) by lia.
  assert (Hd2 : Z.pos (digits2_pos m2) = 53) by lia.
  rewrite Hd2 in Hlo. change (53 - 1) with 52 in Hlo.
  assert (Hm1 : Z.pos m1 < 2 ^ 53).
  { apply Z.lt_le_trans with (2 ^ Z.pos (digits2_pos m1)); trivial.
    apply pow2_le. lia. }
  assert (Hp1 : 0 < 2 ^ (e1 + 1074)) by (apply pow2_pos; lia).
  replace (e2 + 1074) with (e2 - e1 - 1 + (1 + (e1 + 1074))) by lia.
  rewrite (Z.pow_add_r 2 (e2 - e1 - 1)), (Z.pow_add_r 2 1 (e1 + 1074)) by lia.
  change (2 ^ 1) with 2.
  assert (Hp : 0 < 2 ^ (e2 - e1 - 1)) by (apply pow2_pos; lia).
  set (P := 2 ^ (e1 + 1074)) in *. set (Q := 2 ^ (e2 - e1 - 1)) in *.
  apply Z.lt_le_trans with (2 ^ 53 * P); [apply Z.mul_lt_mono_pos_r; lia|].
  apply Z.le_trans with (2 ^ 52 * (1 * (2 * P))); [lia|].
  apply Z.mul_le_mono_nonneg; try lia.
  apply Z.mul_le_mono_nonneg_r; lia.
Qed.

Lemma bounded_compare m1 e1 m2 e2 :
  bounded Float.prec Float.emax m1 e1 = true ->
  bounded Float.prec Float.emax m2 e2 = true ->
  match e1 ?= e2 with
  | Lt => Lt
  | Gt => Gt
  | Eq => Pos.compare_cont Eq m1 m2
  end = (Z.pos m1 * 2 ^ (e1 + 1074) ?= Z.pos m2 * 2 ^ (e2 + 1074)).
Proof.
  intros H1 H2. destruct (Z.compare_spec e1 e2) as [->|Hlt|Hgt].
  - assert (Hp : 0 < 2 ^ (e2 + 1074)).
    { apply pow2_pos. apply bounded_inv in H2. lia. }
    change (Pos.compare_cont Eq m1 m2) with (Z.pos m1 ?= Z.pos m2).
    symmetry. destruct (Z.compare_spec (Z.pos m1) (Z.pos m2)) as [->|Hlt|Hgt].
    + apply Z.compare_refl.
    + apply Z.compare_lt_iff. now apply Z.mul_lt_mono_pos_r.
    + apply Z.compare_gt_iff. now apply Z.mul_lt_mono_pos_r.
  - symmetry. apply Z.compare_lt_iff. now apply bounded_lt_of_exp.
  - symmetry. apply Z.compare_gt_iff. now apply bounded_lt_of_exp.
Qed.

Lemma scaled_sign s m e :
  -1074 <= e ->
  (s = true -> scaled (S754_finite s m e) < 0) /\
  (s = false -> 0 < scaled (S754_finite s m e)).
Proof.
  intros He. pose proof (pow2_pos (e + 1074) ltac:(lia)). cbn [scaled].
  split; intros ->; cbn [cond_Zopp]; nia.
Qed.

Theorem compare_scaled x y :
  Float.valid x = true -> finite_or_zero x = true ->
  Float.valid y = true -> finite_or_zero y = true ->
  SFcompare x y = Some (scaled x ?= scaled y).
Proof.
  intros Hvx Hfx Hvy Hfy.
  destruct x as [sx|sx| |sx mx ex], y as [sy|sy| |sy my ey]; try discriminate.
  - reflexivity.
  - pose proof (valid_exponent _ _ _ Hvy) as He.
    pose proof (scaled_sign sy my ey ltac:(lia)) as [Hn Hp].
    cbn [SFcompare]. f_equal. symmetry. change (scaled (S754_zero sx)) with 0.
    destruct sy; [apply Z.compare_gt_iff; specialize (Hn eq_refl)
                 | apply Z.compare_lt_iff; specialize (Hp eq_refl)]; lia.
  - pose proof (valid_exponent _ _ _ Hvx) as He.
    pose proof (scaled_sign sx mx ex ltac:(lia)) as [Hn Hp].
    cbn [SFcompare]. f_equal. symmetry. change (scaled (S754_zero sy)) with 0.
    destruct sx; [apply Z.compare_lt_iff; specialize (Hn eq_refl)
                 | apply Z.compare_gt_iff; specialize (Hp eq_refl)]; lia.
  - pose proof (valid_exponent _ _ _ Hvx) as Hex.
    pose proof (valid_exponent _ _ _ Hvy) as Hey.
    pose proof (scaled_sign sx mx ex ltac:(lia)) as [Hnx Hpx].
    pose proof (scaled_sign sy my ey ltac:(lia)) as [Hny Hpy].
    cbn [SFcompare]. f_equal.
    destruct sx, sy;
      try specialize (Hnx eq_refl); try specialize (Hpx eq_refl);
      try specialize (Hny eq_refl); try specialize (Hpy eq_refl).
    + cbn [scaled cond_Zopp]. rewrite !Z.mul_opp_l, Z.compare_opp.
      rewrite <- (bounded_compare my ey mx ex) by assumption.
      rewrite (Z.compare_antisym ey ex).
      destruct (ey ?= ex); cbn [CompOpp]; trivial.
      rewrite !Pos.compare_cont_spec. cbn [Pos.switch_Eq].
      rewrite (Pos.compare_antisym my mx).
      now destruct (my ?= mx)%positive.
    + symmetry. apply Z.compare_lt_iff. lia.
    + symmetry. apply Z.compare_gt_iff. lia.
    + cbn [scaled cond_Zopp]. now apply bounded_compare.
Qed.

Lemma leb_scaled x y :
  Float.valid x = true -> finite_or_zero x = true ->
  Float.valid y = true -> finite_or_zero y = true ->
  Float.leb x y = true <-> scaled x <= scaled y.
Proof.
  intros. unfold Float.leb, SFleb. rewrite compare_scaled by assumption.
  destruct (Z.compare_spec (scaled x) (scaled y)); split; intros; try lia;
    try reflexivity; discriminate.
Qed.

Lemma leb_finite_or_zero x y z :
  Float.leb x y = true -> Float.leb y z = true ->
  finite_or_zero x = true -> finite_or_zero z = true ->
  finite_or_zero y = true.
Proof.
  destruct x as [| | |[] ? ?], y as [|[]| |], z as [| | |[] ? ?];
    try discriminate; reflexivity.
Qed.

End Compare.

(** ** KDE: the way to the neutral value and back *)

Section KdeRoundTrip.

Local Abbreviation one := (Float.of_Z 1).
Local Abbreviation minus_one := (Float.neg (Float.of_Z 1)).

Lemma scaled_one : scaled one = 2 ^ 1074.
Proof. vm_compute. reflexivity. Qed.

Lemma scaled_minus_one : scaled minus_one = - 2 ^ 1074.
Proof. vm_compute. reflexivity. Qed.

Lemma valid_one : Float.valid one = true.
Proof. vm_compute. reflexivity. Qed.

Lemma valid_minus_one : Float.valid minus_one = true.
Proof. vm_compute. reflexivity. Qed.

Lemma ulp_exp_ge S j : 0 <= j -> 2 ^ (52 + j) <= Z.abs S -> j <= ulp_exp S.
Proof.
  intros Hj H. unfold ulp_exp.
  assert (Hpos : 0 < Z.abs S).
  { pose proof (pow2_pos (52 + j) ltac:(lia)). lia. }
  apply Z.log2_le_pow2 in H; lia.
Qed.

(** The powers of two that matter, as multiples of the tolerance. *)
Lemma pow2_table :
  let P := 2 ^ 1021 in
  0 < P /\ 2 ^ 1022 = 2 * P /\ 2 ^ 1023 = 4 * P /\
  2 ^ 1073 = 2 ^ 52 * P /\ 2 ^ 1074 = 2 ^ 53 * P /\ 2 ^ 1075 = 2 ^ 54 * P.
Proof.
  intros P. unfold P. split; [now apply pow2_pos|].
  change 1022 with (1 + 1021). change 1023 with (2 + 1021).
  change 1073 with (52 + 1021). change 1074 with (53 + 1021).
  change 1075 with (54 + 1021).
  rewrite !(Z.pow_add_r 2 _ 1021) by lia. now repeat split.
Qed.

(** The arithmetic of [(1.0 + v) - 1.0]: whatever the sum is rounded to,
    taking 1.0 away again is exact, so that only the first rounding, of at
    most half a spacing below 2.0, separates the result from [v]. *)
Lemma add_sub_one_error V x y :
  - 2 ^ 1074 <= V <= 2 ^ 1074 ->
  (2 ^ ulp_exp V | V) ->
  rounds_to (2 ^ 1074 + V) x ->
  rounds_to (scaled x - 2 ^ 1074) y ->
  Z.abs (scaled y - V) <= 2 ^ 1021 /\ - 2 ^ 1074 <= scaled y <= 2 ^ 1074.
Proof.
  intros HV HgridV Hx Hy.
  destruct pow2_table as (HP & H1022 & H1023 & H1073 & H1074 & H1075).
  cbv zeta in *.
  assert (H52 : 2 ^ 52 = 4503599627370496) by reflexivity.
  assert (H53 : 2 ^ 53 = 9007199254740992) by reflexivity.
  assert (H54 : 2 ^ 54 = 18014398509481984) by reflexivity.
  assert (Hcases : V = 2 ^ 1074 \/ 0 <= V < 2 ^ 1074 \/
                   - 2 ^ 1073 <= V < 0 \/ - 2 ^ 1074 <= V < - 2 ^ 1073) by lia.
  destruct Hcases as [HA|[HB|[HC|HD]]].
  - (* v = 1.0: both operations are exact *)
    assert (Ex : scaled x = 2 ^ 1074 + V).
    { apply (rounds_to_exact _ _ 1023 Hx); [lia| |].
      - rewrite HA. replace (2 ^ 1074 + 2 ^ 1074) with (2 ^ 1075) by lia.
        apply pow2_divide. lia.
      - change (53 + 1023) with 1076.
        pose proof (pow2_lt 1075 1076 ltac:(lia)). lia. }
    assert (Ey : scaled y = scaled x - 2 ^ 1074).
    { apply (rounds_to_exact _ _ 1022 Hy); [lia| |].
      - rewrite Ex, HA. replace (2 ^ 1074 + 2 ^ 1074 - 2 ^ 1074) with (2 ^ 1074) by lia.
        apply pow2_divide. lia.
      - change (53 + 1022) with 1075. lia. }
    lia.
  - (* 0 <= v < 1.0: the sum is rounded in [1.0, 2.0) *)
    destruct Hx as (_ & _ & Hgx & Hex).
    rewrite (ulp_exp_binade _ 1022) in Hgx, Hex;
      [|lia|change (52 + 1022) with 1074; change (53 + 1022) with 1075; lia
       |lia|change (52 + 1022) with 1074; change (53 + 1022) with 1075; lia].
    assert (Hlo : 2 ^ 1074 <= scaled x).
    { apply (grid_ge (2 ^ 1022)); trivial; try (apply pow2_divide; lia); lia. }
    assert (Hhi : scaled x <= 2 ^ 1075).
    { apply (grid_le (2 ^ 1022)); trivial; try (apply pow2_divide; lia); lia. }
    assert (Ey : scaled y = scaled x - 2 ^ 1074).
    { apply (rounds_to_exact _ _ 1022 Hy); [lia| |].
      - apply Z.divide_sub_r; trivial. apply pow2_divide. lia.
      - change (53 + 1022) with 1075. lia. }
    lia.
  - (* -0.5 <= v < 0: the sum is rounded in [0.5, 1.0) *)
    destruct Hx as (_ & _ & Hgx & Hex).
    rewrite (ulp_exp_binade _ 1021) in Hgx, Hex;
      [|lia|change (52 + 1021) with 1073; change (53 + 1021) with 1074; lia
       |lia|change (52 + 1021) with 1073; change (53 + 1021) with 1074; lia].
    assert (Hlo : 2 ^ 1073 <= scaled x).
    { apply (grid_ge (2 ^ 1021)); trivial; try (apply pow2_divide; lia); lia. }
    assert (Hhi : scaled x <= 2 ^ 1074).
    { apply (grid_le (2 ^ 1021)); trivial; try (apply pow2_divide; lia); lia. }
    assert (Ey : scaled y = scaled x - 2 ^ 1074).
    { apply (rounds_to_exact _ _ 1021 Hy); [lia| |].
      - apply Z.divide_sub_r; trivial. apply pow2_divide. lia.
      - change (53 + 1021) with 1074. lia. }
    lia.
  - (* -1.0 <= v < -0.5: [v] is a multiple of [2^-53] and nothing is rounded *)
    assert (HgV : (2 ^ 1021 | V)).
    { apply Z.divide_trans with (2 ^ ulp_exp V); trivial.
      apply pow2_divide. split; [lia|]. apply ulp_exp_ge; [lia|].
      change (52 + 1021) with 1073. lia. }
    assert (Ex : scaled x = 2 ^ 1074 + V).
    { apply (rounds_to_exact _ _ 1021 Hx); [lia| |].
      - apply Z.divide_add_r; trivial. apply pow2_divide. lia.
      - change (53 + 1021) with 1074. lia. }
    assert (Ey : scaled y = scaled x - 2 ^ 1074).
    { apply (rounds_to_exact _ _ 1021 Hy); [lia| |].
      - rewrite Ex. now replace (2 ^ 1074 + V - 2 ^ 1074) with V by lia.
      - change (53 + 1021) with 1074. lia. }
    lia.
Qed.

Lemma kde_in_range_scaled v :
  Float.valid v = true -> finite_or_zero v = true ->
  kde_in_range v <-> - 2 ^ 1074 <= scaled v <= 2 ^ 1074.
Proof.
  intros Hv Hf. unfold kde_in_range.
  rewrite (leb_scaled minus_one v valid_minus_one eq_refl Hv Hf).
  rewrite (leb_scaled v one Hv Hf valid_one eq_refl).
  rewrite scaled_one, scaled_minus_one. tauto.
Qed.

Lemma kde_in_range_finite v : kde_in_range v -> finite_or_zero v = true.
Proof.
  intros [H1 H2]. now apply (leb_finite_or_zero minus_one v one).
Qed.

Lemma kde_add_sub_one v :
  Float.valid v = true -> kde_in_range v ->
  let y := Float.sub (Float.add one v) one in
  Float.valid y = true /\ kde_in_range y /\
  Z.abs (scaled y - scaled v) <= 2 ^ 1021.
Proof.
  intros Hv Hr y.
  pose proof (kde_in_range_finite v Hr) as Hf.
  pose proof (proj1 (kde_in_range_scaled v Hv Hf) Hr) as HV.
  destruct pow2_table as (HP & H1022 & H1023 & H1073 & H1074 & H1075).
  cbv zeta in *.
  assert (H53 : 2 ^ 53 = 9007199254740992) by reflexivity.
  assert (H54 : 2 ^ 54 = 18014398509481984) by reflexivity.
  assert (Hbig : 2 ^ 56 * 2 ^ 1021 < 2 ^ 2097).
  { rewrite <- Z.pow_add_r by lia. apply pow2_lt. lia. }
  assert (H56 : 2 ^ 56 = 72057594037927936) by reflexivity.
  assert (Hx : rounds_to (2 ^ 1074 + scaled v) (Float.add one v)).
  { rewrite <- scaled_one.
    apply (add_spec one v valid_one eq_refl Hv Hf).
    rewrite scaled_one. lia. }
  assert (Hy : rounds_to (scaled (Float.add one v) - 2 ^ 1074) y).
  { destruct Hx as (Hvx & Hfx & Hgx & Hex).
    rewrite <- scaled_one.
    apply (sub_spec _ one Hvx Hfx valid_one eq_refl).
    rewrite scaled_one.
    assert (Hk : ulp_exp (2 ^ 1074 + scaled v) <= 1023).
    { apply ulp_exp_bound; [lia|]. change (53 + 1023) with (55 + 1021).
      rewrite Z.pow_add_r by lia.
      assert (H55 : 2 ^ 55 = 36028797018963968) by reflexivity. lia. }
    pose proof (pow2_le (ulp_exp (2 ^ 1074 + scaled v)) 1023
                  (conj (ulp_exp_nonneg _) Hk)) as Hle.
    lia. }
  assert (Hgv : (2 ^ ulp_exp (scaled v) | scaled v)).
  { now destruct (rounds_to_self v Hv Hf) as (_ & _ & Hg & _). }
  destruct (add_sub_one_error (scaled v) (Float.add one v) y HV Hgv Hx Hy)
    as [Herr Hrange].
  destruct Hy as (Hvy & Hfy & _).
  split; [exact Hvy|]. split; [|exact Herr].
  now apply kde_in_range_scaled.
Qed.

End KdeRoundTrip.

(** ** Rational values *)

Lemma to_Q_error x y :
  Z.abs (scaled x - scaled y) <= 2 ^ 1021 ->
  (Qabs (to_Q x - to_Q y) <= 1 # 2 ^ 53)%Q.
Proof.
  intros H. unfold to_Q, Qminus, Qplus, Qopp, Qabs, Qle. cbn [Qnum Qden].
  rewrite Pos2Z.inj_mul.
  assert (Hd : Z.pos (2 ^ 1074) = 2 ^ 53 * 2 ^ 1021).
  { rewrite Pos2Z.inj_pow, <- Z.pow_add_r by lia. reflexivity. }
  assert (H53 : Z.pos (2 ^ 53) = 2 ^ 53) by (now rewrite Pos2Z.inj_pow).
  rewrite Hd, H53.
  assert (HP : 0 < 2 ^ 1021) by (apply Z.pow_pos_nonneg; lia).
  assert (Hq : 0 < 2 ^ 53) by (apply Z.pow_pos_nonneg; lia).
  set (P := 2 ^ 1021) in *. set (Q53 := 2 ^ 53) in *.
  replace (scaled x * (Q53 * P) + - scaled y * (Q53 * P))
    with ((scaled x - scaled y) * (Q53 * P)) by ring.
  rewrite Z.abs_mul, (Z.abs_eq (Q53 * P)) by nia.
  set (A := Z.abs (scaled x - scaled y)) in *.
  rewrite Z.mul_1_l.
  replace (A * (Q53 * P) * Q53) with (A * Q53 * (Q53 * P)) by ring.
  replace (Q53 * P * (Q53 * P)) with (P * Q53 * (Q53 * P)) by ring.
  apply Z.mul_le_mono_nonneg_r; [nia|].
  apply Z.mul_le_mono_nonneg_r; lia.
Qed.

(** ** Windows: exact distances *)

Section ExactDistance.

Import WindowsPlatform.

Lemma eqb_scaled x y :
  Float.valid x = true -> finite_or_zero x = true ->
  Float.valid y = true -> finite_or_zero y = true ->
  Float.eqb x y = true <-> scaled x = scaled y.
Proof.
  intros. unfold Float.eqb, SFeqb. rewrite compare_scaled by assumption.
  destruct (Z.compare_spec (scaled x) (scaled y)); split; intros; try lia;
    try reflexivity; discriminate.
Qed.

Lemma abs_scaled z : scaled (Float.abs z) = Z.abs (scaled z).
Proof.
  destruct z as [s|s| |s m e]; try reflexivity. cbn [Float.abs SFabs scaled].
  pose proof (Z.pow_nonneg 2 (e + 1074) ltac:(lia)) as Hp.
  destruct s; cbn [cond_Zopp]; [rewrite Z.mul_opp_l, Z.abs_opp|];
    rewrite Z.abs_eq; lia.
Qed.

Lemma abs_valid z : Float.valid (Float.abs z) = Float.valid z.
Proof. now destruct z. Qed.

Lemma abs_finite_or_zero z : finite_or_zero (Float.abs z) = finite_or_zero z.
Proof. now destruct z. Qed.

(** Every multiplier of the table is a positive multiple of 1/32, at most
    3.5. *)
Lemma tick_map_values kv :
  In kv _tick_map ->
  Float.valid (snd kv) = true /\ finite_or_zero (snd kv) = true /\
  (2 ^ 1069 | scaled (snd kv)) /\ 0 < scaled (snd kv) <= 7 * 2 ^ 1073.
Proof.
  intros Hin.
  assert (Hall : forallb (fun kv =>
            Float.valid (snd kv) && finite_or_zero (snd kv)
            && (scaled (snd kv) mod 2 ^ 1069 =? 0)
            && (0 <? scaled (snd kv)) && (scaled (snd kv) <=? 7 * 2 ^ 1073))
          _tick_map = true) by (vm_compute; reflexivity).
  pose proof (tick_map_forallb _ Hall kv Hin) as H. cbv beta in H.
  repeat (apply andb_true_iff in H as [H ?]).
  split; [assumption|]. split; [assumption|]. split.
  - apply Z.mod_divide; [|now apply Z.eqb_eq].
    pose proof (pow2_pos 1069 ltac:(lia)). lia.
  - split; [now apply Z.ltb_lt | now apply Z.leb_le].
Qed.

Lemma tick_map_exact_increasing kv1 kv2 :
  In kv1 _tick_map -> In kv2 _tick_map -> fst kv1 < fst kv2 ->
  scaled (snd kv1) < scaled (snd kv2).
Proof.
  intros H1 H2 Hlt.
  assert (Hall : forallb (fun a =>
            forallb (fun b => negb (fst a <? fst b)
                              || (scaled (snd a) <? scaled (snd b)))
                    _tick_map) _tick_map = true)
    by (vm_compute; reflexivity).
  pose proof (tick_map_forallb _ Hall _ H1) as H.
  cbv beta in H. rewrite forallb_forall in H. specialize (H _ H2).
  cbv beta in H. apply orb_true_iff in H as [H|H]; [|now apply Z.ltb_lt].
  apply negb_true_iff, Z.ltb_ge in H. lia.
Qed.

(** For a multiplier on the grid of spacing 1/64 and not larger than 3.5
    the subtraction in the key of the scan is exact. *)
Lemma distance_exact m kv :
  Float.valid (multiplier m) = true -> finite_or_zero (multiplier m) = true ->
  (2 ^ 1068 | scaled (multiplier m)) ->
  0 <= scaled (multiplier m) <= 7 * 2 ^ 1073 ->
  In kv _tick_map ->
  Float.valid (distance m kv) = true /\
  finite_or_zero (distance m kv) = true /\
  scaled (distance m kv) = exact_distance m kv.
Proof.
  intros Hv Hf Hg Hb Hin.
  destruct (tick_map_values kv Hin) as (Hvx & Hfx & Hgx & Hbx).
  assert (H1073 : 2 ^ 1076 = 8 * 2 ^ 1073).
  { change 1076 with (3 + 1073). now rewrite Z.pow_add_r by lia. }
  pose proof (pow2_pos 1073 ltac:(lia)) as Hp.
  pose proof (pow2_lt 1076 1121 ltac:(lia)) as Hlt1.
  pose proof (pow2_lt 1076 2097 ltac:(lia)) as Hlt2.
  assert (Hs : rounds_to (scaled (snd kv) - scaled (multiplier m))
                         (Float.sub (snd kv) (multiplier m))).
  { apply sub_spec; trivial. lia. }
  assert (He : scaled (Float.sub (snd kv) (multiplier m))
               = scaled (snd kv) - scaled (multiplier m)).
  { apply (rounds_to_exact _ _ 1068 Hs); [lia| |].
    - apply Z.divide_sub_r; trivial.
      apply Z.divide_trans with (2 ^ 1069); trivial. apply pow2_divide. lia.
    - change (53 + 1068) with 1121. lia. }
  destruct Hs as (Hvs & Hfs & _).
  unfold distance, exact_distance.
  rewrite abs_valid, abs_finite_or_zero, abs_scaled, He. auto.
Qed.

(** A multiplier half-way between two different entries lies on the grid
    of spacing 1/64. *)
Lemma midpoint_grid m kv1 kv2 :
  In kv1 _tick_map -> In kv2 _tick_map -> fst kv1 <> fst kv2 ->
  exact_distance m kv1 = exact_distance m kv2 ->
  (2 ^ 1068 | scaled (multiplier m)) /\
  0 <= scaled (multiplier m) <= 7 * 2 ^ 1073.
Proof.
  intros H1 H2 Hne Heq. unfold exact_distance in Heq.
  destruct (tick_map_values kv1 H1) as (_ & _ & [z1 Hg1] & Hb1).
  destruct (tick_map_values kv2 H2) as (_ & _ & [z2 Hg2] & Hb2).
  assert (Hdiff : scaled (snd kv1) <> scaled (snd kv2)).
  { destruct (Z.lt_total (fst kv1) (fst kv2)) as [Hlt|[Heq'|Hgt]]; [|lia|].
    - pose proof (tick_map_exact_increasing kv1 kv2 H1 H2 Hlt). lia.
    - pose proof (tick_map_exact_increasing kv2 kv1 H2 H1 Hgt). lia. }
  assert (Hmid : 2 * scaled (multiplier m) = scaled (snd kv1) + scaled (snd kv2)) by lia.
  split; [|lia].
  exists (z1 + z2).
  assert (H1069 : 2 ^ 1069 = 2 * 2 ^ 1068).
  { change 1069 with (1 + 1068). now rewrite Z.pow_add_r by lia. }
  rewrite Hg1, Hg2, H1069 in Hmid. lia.
Qed.

End ExactDistance.


(** ** KDE: the legal range in numbers *)

Section KdeLegal.

Lemma pos_pow_1074 : Z.pos (2 ^ 1074) = 2 ^ 1074.
Proof. now rewrite Pos2Z.inj_pow. Qed.

Lemma to_Q_le_one v : (to_Q v <= 1)%Q <-> scaled v <= 2 ^ 1074.
Proof.
  unfold to_Q, Qle. cbn [Qnum Qden]. rewrite pos_pow_1074. lia.
Qed.

Lemma to_Q_ge_minus_one v : (-1 <= to_Q v)%Q <-> - 2 ^ 1074 <= scaled v.
Proof.
  unfold to_Q, Qle. cbn [Qnum Qden]. rewrite pos_pow_1074. lia.
Qed.

Lemma to_Q_lt x y : (to_Q x < to_Q y)%Q <-> scaled x < scaled y.
Proof.
  unfold to_Q, Qlt. cbn [Qnum Qden]. rewrite pos_pow_1074.
  pose proof (pow2_pos 1074 ltac:(lia)) as Hp.
  split; intros H.
  - now apply (Z.mul_lt_mono_pos_r (2 ^ 1074)).
  - now apply Z.mul_lt_mono_pos_r.
Qed.

Lemma kde_legal_in_range v :
  Float.valid v = true -> kde_legal v <-> kde_in_range v.
Proof.
  intros Hv. unfold kde_legal. rewrite to_Q_le_one, to_Q_ge_minus_one. split.
  - intros (Hf & Hlo & Hhi). now apply kde_in_range_scaled.
  - intros Hr. pose proof (kde_in_range_finite v Hr) as Hf.
    split; [exact Hf|]. now apply kde_in_range_scaled.
Qed.

End KdeLegal.

(** ** The table in numbers *)

(** The multipliers of the table are exactly the rationals of the Windows
    scale. *)
Lemma tick_map_exact_values :
  map (fun kv => Qred (to_Q (snd kv))) WindowsPlatform._tick_map
  = [ 1 # 32; 1 # 16; 1 # 8; 1 # 4; 3 # 8; 1 # 2; 5 # 8; 3 # 4; 7 # 8; 1 # 1;
      5 # 4; 3 # 2; 7 # 4; 2 # 1; 9 # 4; 5 # 2; 11 # 4; 3 # 1; 13 # 4;
      7 # 2 ]%Q /\
  map fst WindowsPlatform._tick_map
  = [1; 2; 3; 4; 5; 6; 7; 8; 9; 10; 11; 12; 13; 14; 15; 16; 17; 18; 19; 20].
Proof. split; vm_compute; reflexivity. Qed.

(** * The claims *)

(** C1: a tick of the legal range survives the way to the neutral value and
    back on the Windows platform unchanged. *)
Theorem windows_round_trip t :
  1 <= t <= 20 ->
  (s <- WindowsSensitivity_init t ;;
   m <- WindowsPlatform.to_intermediate s ;;
   WindowsPlatform.from_intermediate m) = Return (WindowsSensitivity t).
Proof.
  intros Ht.
  assert (Hcases : t = 1 \/ t = 2 \/ t = 3 \/ t = 4 \/ t = 5 \/ t = 6 \/ t = 7
                   \/ t = 8 \/ t = 9 \/ t = 10 \/ t = 11 \/ t = 12 \/ t = 13
                   \/ t = 14 \/ t = 15 \/ t = 16 \/ t = 17 \/ t = 18 \/ t = 19
                   \/ t = 20) by lia.
  repeat (destruct Hcases as [-> | Hcases]; [vm_compute; reflexivity|]).
  subst t. vm_compute; reflexivity.
Qed.

Lemma windows_round_trip_witness :
  (s <- WindowsSensitivity_init 7 ;;
   m <- WindowsPlatform.to_intermediate s ;;
   WindowsPlatform.from_intermediate m) = Return (WindowsSensitivity 7).
Proof.
  apply (windows_round_trip 7). lia.
Defined.

(** C2: for every binary64 [v] with [-1.0 <= v <= 1.0], constructing the
    KDE value, converting it to the neutral value and back returns a KDE
    value that equals [v] within floating-point tolerance: the clamp has no
    effect, the result is [(1.0 + v) - 1.0] as the machine computes it, and
    its exact distance from [v] is at most [2^-53], half the spacing of the
    floats between 1 and 2. *)
Theorem kde_round_trip v :
  Float.valid v = true ->
  kde_in_range v ->
  exists r,
    (s <- KDESensitivity_init v ;;
     m <- KDEPlatform.to_intermediate s ;;
     KDEPlatform.from_intermediate m) = Return (KDESensitivity r) /\
    r = Float.sub (Float.add (Float.of_Z 1) v) (Float.of_Z 1) /\
    finite_or_zero r = true /\
    (Qabs (to_Q r - to_Q v) <= 1 # 2 ^ 53)%Q.
Proof.
  intros Hv Hr.
  destruct (kde_add_sub_one v Hv Hr) as (Hvy & Hry & Herr).
  set (y := Float.sub (Float.add (Float.of_Z 1) v) (Float.of_Z 1)) in *.
  exists y. split; [|split; [reflexivity|split]].
  - rewrite (KDESensitivity_init_ok v Hr). cbn [bind].
    unfold KDEPlatform.to_intermediate. cbn [bind].
    unfold KDEPlatform.from_intermediate. cbn [multiplier]. fold y.
    rewrite (clamp_id y Hry). now apply KDESensitivity_init_ok.
  - now apply kde_in_range_finite.
  - now apply to_Q_error.
Qed.

Lemma kde_round_trip_witness :
  exists r,
    (s <- KDESensitivity_init (Float.decimal 1 1) ;;
     m <- KDEPlatform.to_intermediate s ;;
     KDEPlatform.from_intermediate m) = Return (KDESensitivity r) /\
    r = Float.sub (Float.add (Float.of_Z 1) (Float.decimal 1 1)) (Float.of_Z 1) /\
    finite_or_zero r = true /\
    (Qabs (to_Q r - to_Q (Float.decimal 1 1)) <= 1 # 2 ^ 53)%Q.
Proof.
  apply (kde_round_trip (Float.decimal 1 1)).
  - vm_compute. reflexivity.
  - split; vm_compute; reflexivity.
Defined.

(** The tolerance is needed: on 0.1 the way there and back returns a
    different float, 0.10000000000000009. *)
Lemma kde_round_trip_inexact :
  (s <- KDESensitivity_init (Float.decimal 1 1) ;;
   m <- KDEPlatform.to_intermediate s ;;
   KDEPlatform.from_intermediate m)
  = Return (KDESensitivity (S754_finite false 7205759403792800 (-56))) /\
  Float.decimal 1 1 = S754_finite false 7205759403792794 (-56).
Proof. split; vm_compute; reflexivity. Qed.

(** C3: construction raises [ValueError] exactly when the native value is
    outside the legal range of its platform (a tick outside 1..20; a float
    that is not a finite number between -1 and 1), and otherwise returns the
    object carrying the given field unchanged; ticks 0 and 21 and the values
    -1.01 and 1.01 are rejected. *)
Theorem construction_validates :
  (forall t, WindowsSensitivity_init t = Raise ValueError <-> ~ (1 <= t <= 20)) /\
  (forall t, WindowsSensitivity_init t = Return (WindowsSensitivity t) <-> 1 <= t <= 20) /\
  (forall v, Float.valid v = true ->
     (KDESensitivity_init v = Raise ValueError <-> ~ kde_legal v)) /\
  (forall v, Float.valid v = true ->
     (KDESensitivity_init v = Return (KDESensitivity v) <-> kde_legal v)) /\
  WindowsSensitivity_init 0 = Raise ValueError /\
  WindowsSensitivity_init 21 = Raise ValueError /\
  KDESensitivity_init (Float.neg (Float.decimal 101 2)) = Raise ValueError /\
  KDESensitivity_init (Float.decimal 101 2) = Raise ValueError.
Proof.
  split; [|split; [|split; [|split; [|split; [|split; [|split]]]]]].
  5-8: vm_compute; reflexivity.
  - intros t. split.
    + intros H Ht. rewrite (WindowsSensitivity_init_ok t Ht) in H. discriminate.
    + intros Ht. unfold WindowsSensitivity_init.
      destruct ((1 <=? t) && (t <=? 20)) eqn:E; cbn [negb]; [|reflexivity].
      apply andb_true_iff in E. lia.
  - intros t. split.
    + intros H. now apply WindowsSensitivity_init_inv in H.
    + apply WindowsSensitivity_init_ok.
  - intros v Hv. rewrite (kde_legal_in_range v Hv). split.
    + intros H Hr. rewrite (KDESensitivity_init_ok v Hr) in H. discriminate.
    + apply KDESensitivity_init_raise.
  - intros v Hv. rewrite (kde_legal_in_range v Hv). split.
    + intros H. now apply KDESensitivity_init_inv in H.
    + apply KDESensitivity_init_ok.
Qed.

(** C4: [to_intermediate] of a platform raises [TypeError] on every
    sensitivity that is not an instance of the platform's own class (so the
    Windows platform rejects [KDESensitivity(0.0)]), and does not raise
    [TypeError] on an instance of its own class. *)
Theorem to_intermediate_type_guard :
  (forall s, (forall t, s <> WindowsSensitivity t) ->
             WindowsPlatform.to_intermediate s = Raise TypeError) /\
  WindowsPlatform.to_intermediate (KDESensitivity (S754_zero false)) = Raise TypeError /\
  (forall s, (forall v, s <> KDESensitivity v) ->
             KDEPlatform.to_intermediate s = Raise TypeError) /\
  (forall t, WindowsPlatform.to_intermediate (WindowsSensitivity t) <> Raise TypeError) /\
  (forall v, KDEPlatform.to_intermediate (KDESensitivity v) <> Raise TypeError).
Proof.
  split; [|split; [|split; [|split]]].
  - intros [t|v|] H; try reflexivity. now destruct (H t).
  - reflexivity.
  - intros [t|v|] H; try reflexivity. now destruct (H v).
  - intros t. unfold WindowsPlatform.to_intermediate.
    generalize WindowsPlatform._tick_map as d.
    induction d as [|[k x] d IH]; simpl; [discriminate|].
    destruct (k =? t); [discriminate | exact IH].
  - intros v. unfold KDEPlatform.to_intermediate. discriminate.
Qed.

(** C5: when a multiplier is exactly equidistant from the multipliers of
    two different ticks, the Windows [from_intermediate] returns a tick at
    the smallest exact distance from the multiplier, and of the ticks at
    that distance the smallest one. *)
Theorem windows_tie_break m t1 x1 t2 x2 :
  Float.valid (multiplier m) = true ->
  finite_or_zero (multiplier m) = true ->
  In (t1, x1) WindowsPlatform._tick_map ->
  In (t2, x2) WindowsPlatform._tick_map ->
  t1 <> t2 ->
  exact_distance m (t1, x1) = exact_distance m (t2, x2) ->
  exists r xr,
    WindowsPlatform.from_intermediate m = Return (WindowsSensitivity r) /\
    In (r, xr) WindowsPlatform._tick_map /\
    (forall t x, In (t, x) WindowsPlatform._tick_map ->
       exact_distance m (r, xr) <= exact_distance m (t, x)) /\
    (forall t x, In (t, x) WindowsPlatform._tick_map ->
       exact_distance m (t, x) = exact_distance m (r, xr) -> r <= t).
Proof.
  intros Hv Hf H1 H2 Hne Heq.
  destruct (midpoint_grid m _ _ H1 H2 Hne Heq) as [Hg Hb].
  assert (Hnan : Float.is_nan (multiplier m) = false)
    by (now destruct (multiplier m)).
  destruct (from_intermediate_first m Hnan) as (r & xr & Hr & Hin & Hmin & Hfirst).
  destruct (distance_exact m (r, xr) Hv Hf Hg Hb Hin) as (Hvr & Hfr & Her).
  exists r, xr. split; [exact Hr|]. split; [exact Hin|]. split.
  - intros t x Ht.
    destruct (distance_exact m (t, x) Hv Hf Hg Hb Ht) as (Hvt & Hft & Het).
    rewrite <- Her, <- Het. apply leb_scaled; trivial. now apply Hmin.
  - intros t x Ht He.
    destruct (distance_exact m (t, x) Hv Hf Hg Hb Ht) as (Hvt & Hft & Het).
    apply (Hfirst (t, x) Ht). apply eqb_scaled; trivial. congruence.
Qed.

Lemma windows_tie_break_witness :
  exists r xr,
    WindowsPlatform.from_intermediate
      (Build_IntermediateSensitivity (Float.truediv 3 16))
    = Return (WindowsSensitivity r) /\
    In (r, xr) WindowsPlatform._tick_map /\
    (forall t x, In (t, x) WindowsPlatform._tick_map ->
       exact_distance (Build_IntermediateSensitivity (Float.truediv 3 16)) (r, xr)
       <= exact_distance (Build_IntermediateSensitivity (Float.truediv 3 16)) (t, x)) /\
    (forall t x, In (t, x) WindowsPlatform._tick_map ->
       exact_distance (Build_IntermediateSensitivity (Float.truediv 3 16)) (t, x)
       = exact_distance (Build_IntermediateSensitivity (Float.truediv 3 16)) (r, xr) ->
       r <= t).
Proof.
  apply (windows_tie_break (Build_IntermediateSensitivity (Float.truediv 3 16))
           3 (Float.truediv 1 8) 4 (Float.truediv 2 8)).
  - vm_compute. reflexivity.
  - vm_compute. reflexivity.
  - do 2 right. left. reflexivity.
  - do 3 right. left. reflexivity.
  - lia.
  - vm_compute. reflexivity.
Defined.

(** Half-way between ticks 3 and 4, and half-way between ticks 13 and 14,
    the smaller tick is returned. *)
Lemma windows_tie_break_examples :
  WindowsPlatform.from_intermediate
    (Build_IntermediateSensitivity (Float.truediv 3 16))
  = Return (WindowsSensitivity 3) /\
  WindowsPlatform.from_intermediate
    (Build_IntermediateSensitivity (Float.decimal 1875 3))
  = Return (WindowsSensitivity 13).
Proof. split; vm_compute; reflexivity. Qed.

(** C6: for every neutral value whatsoever the KDE [from_intermediate]
    returns, without raising, the KDE value [max(-1.0, min(1.0, m - 1.0))];
    that value lies in the legal range, is [m - 1.0] itself when that is in
    the range, -1.0 when it is below and 1.0 when it is above. *)
Theorem kde_from_intermediate_clamps (m : IntermediateSensitivity) :
  let val := Float.sub (multiplier m) (Float.of_Z 1) in
  let clamped := Builtins.max2 (Float.neg (Float.of_Z 1))
                               (Builtins.min2 (Float.of_Z 1) val) in
  KDEPlatform.from_intermediate m = Return (KDESensitivity clamped) /\
  kde_in_range clamped /\
  (kde_in_range val -> clamped = val) /\
  (Float.ltb val (Float.neg (Float.of_Z 1)) = true ->
   clamped = Float.neg (Float.of_Z 1)) /\
  (Float.ltb (Float.of_Z 1) val = true -> clamped = Float.of_Z 1).
Proof.
  intros val clamped.
  pose proof (clamp_in_range val) as Hr. fold clamped in Hr.
  split; [|split; [exact Hr|split; [|split]]].
  - unfold KDEPlatform.from_intermediate. fold val. fold clamped.
    now apply KDESensitivity_init_ok.
  - apply clamp_id.
  - apply clamp_below.
  - apply clamp_above.
Qed.

(** C7: for every neutral value whatsoever (finite, infinite or NaN) the
    Windows [from_intermediate] returns a [WindowsSensitivity] whose tick
    is a key of the table, hence in 1..20; the constructor never raises. *)
Theorem windows_from_intermediate_total (m : IntermediateSensitivity) :
  exists t, WindowsPlatform.from_intermediate m = Return (WindowsSensitivity t) /\
            1 <= t <= 20 /\
            In t (map fst WindowsPlatform._tick_map).
Proof.
  unfold WindowsPlatform.from_intermediate, Builtins.items.
  destruct (min_key_nonempty (WindowsPlatform.distance m) WindowsPlatform._tick_map)
    as [r Hr]; [discriminate|].
  rewrite Hr. cbn [bind].
  apply min_key_In in Hr.
  exists (fst r). split; [|split].
  - apply WindowsSensitivity_init_ok. now apply tick_map_keys.
  - now apply tick_map_keys.
  - now apply in_map.
Qed.

(** C8: converting the KDE value -1.0 to Windows goes through the
    multiplier 0.0, which is below the smallest table entry 1/32, and yields
    tick 1. *)
Theorem convert_kde_minus_one :
  (s <- KDESensitivity_init (Float.neg (Float.of_Z 1)) ;;
   convert_sensitivity KDEPlatform.platform WindowsPlatform.platform s)
  = Return (WindowsSensitivity 1) /\
  KDEPlatform.to_intermediate (KDESensitivity (Float.neg (Float.of_Z 1)))
  = Return (Build_IntermediateSensitivity (S754_zero false)) /\
  Float.ltb (S754_zero false) (Float.truediv 1 32) = true /\
  (forall kv, In kv WindowsPlatform._tick_map ->
              Float.leb (Float.truediv 1 32) (snd kv) = true).
Proof.
  split; [vm_compute; reflexivity|].
  split; [vm_compute; reflexivity|].
  split; [vm_compute; reflexivity|].
  apply tick_map_forallb. vm_compute; reflexivity.
Qed.

(** C9: the table is strictly increasing: of two entries, the one with the
    smaller tick has the strictly smaller multiplier, as floats compare and
    as exact numbers. *)
Theorem tick_map_strictly_increasing t1 x1 t2 x2 :
  In (t1, x1) WindowsPlatform._tick_map ->
  In (t2, x2) WindowsPlatform._tick_map ->
  t1 < t2 ->
  Float.ltb x1 x2 = true /\ (to_Q x1 < to_Q x2)%Q.
Proof.
  intros H1 H2 Hlt. split.
  - assert (Hall : forallb (fun a =>
              forallb (fun b => negb (fst a <? fst b) || Float.ltb (snd a) (snd b))
                      WindowsPlatform._tick_map) WindowsPlatform._tick_map = true)
      by (vm_compute; reflexivity).
    pose proof (tick_map_forallb _ Hall _ H1) as H.
    cbv beta in H. rewrite forallb_forall in H. specialize (H _ H2).
    cbn [fst snd] in H. apply orb_true_iff in H as [H|H]; [|exact H].
    apply negb_true_iff, Z.ltb_ge in H. lia.
  - apply to_Q_lt. now apply (tick_map_exact_increasing (t1, x1) (t2, x2)).
Qed.

Lemma tick_map_strictly_increasing_witness :
  Float.ltb (Float.truediv 7 8) (Float.of_Z 1) = true /\
  (to_Q (Float.truediv 7 8) < to_Q (Float.of_Z 1))%Q.
Proof.
  apply (tick_map_strictly_increasing 9 _ 10 _).
  - do 8 right. left. reflexivity.
  - do 9 right. left. reflexivity.
  - lia.
Defined.

(** C10: on every successfully constructed [WindowsSensitivity] the
    Windows [to_intermediate] returns (raising neither [KeyError] nor
    anything else) the neutral value carrying exactly the table entry of
    its tick. *)
Theorem windows_to_intermediate_total t s :
  WindowsSensitivity_init t = Return s ->
  exists x, In (t, x) WindowsPlatform._tick_map /\
            Builtins.getitem WindowsPlatform._tick_map t = Return x /\
            WindowsPlatform.to_intermediate s
            = Return (Build_IntermediateSensitivity x).
Proof.
  intros H. apply WindowsSensitivity_init_inv in H as [Ht ->].
  destruct (getitem_tick_map t Ht) as [x Hx].
  exists x. split; [now apply getitem_In|]. split; [exact Hx|].
  unfold WindowsPlatform.to_intermediate. now rewrite Hx.
Qed.

Lemma windows_to_intermediate_total_witness :
  exists x, In (12, x) WindowsPlatform._tick_map /\
            Builtins.getitem WindowsPlatform._tick_map 12 = Return x /\
            WindowsPlatform.to_intermediate (WindowsSensitivity 12)
            = Return (Build_IntermediateSensitivity x).
Proof.
  apply (windows_to_intermediate_total 12 (WindowsSensitivity 12)).
  vm_compute. reflexivity.
Defined.

(** * Further properties *)

(** ** Conversions between the two platforms *)

Section Convert.

Lemma platforms_distinct : WindowsPlatform.platform <> KDEPlatform.platform.
Proof.
  intros H.
  assert (E : to_intermediate WindowsPlatform.platform OtherSensitivity
              = to_intermediate KDEPlatform.platform OtherSensitivity)
    by now rewrite H.
  assert (E' : to_intermediate WindowsPlatform.platform (WindowsSensitivity 1)
              = to_intermediate KDEPlatform.platform (WindowsSensitivity 1))
    by now rewrite H.
  vm_compute in E'. discriminate.
Qed.

(** The scan returns an entry of the table, so that the constructor of the
    result passes. *)
Lemma windows_from_intermediate_legal m :
  exists t, WindowsPlatform.from_intermediate m = Return (WindowsSensitivity t) /\
            1 <= t <= 20.
Proof.
  unfold WindowsPlatform.from_intermediate, Builtins.items.
  destruct (min_key_nonempty (WindowsPlatform.distance m) WindowsPlatform._tick_map)
    as [r Hr]; [discriminate|].
  rewrite Hr. cbn [bind]. apply min_key_In in Hr.
  exists (fst r). split; [|now apply tick_map_keys].
  apply WindowsSensitivity_init_ok. now apply tick_map_keys.
Qed.

Lemma kde_from_intermediate_legal m :
  exists v, KDEPlatform.from_intermediate m = Return (KDESensitivity v) /\
            kde_in_range v.
Proof.
  unfold KDEPlatform.from_intermediate.
  eexists. split; [|apply clamp_in_range].
  apply KDESensitivity_init_ok, clamp_in_range.
Qed.

Lemma from_intermediate_legal p m :
  is_platform p -> exists s, from_intermediate p m = Return s /\ legal_for p s.
Proof.
  intros [-> | ->].
  - destruct (windows_from_intermediate_legal m) as (t & Ht & Hr).
    exists (WindowsSensitivity t). split; [exact Ht|]. left. eauto.
  - destruct (kde_from_intermediate_legal m) as (v & Hv & Hr).
    exists (KDESensitivity v). split; [exact Hv|]. right. eauto.
Qed.

Lemma to_intermediate_constructed p s :
  is_platform p -> constructed s ->
  (owns p s /\ exists m, to_intermediate p s = Return m) \/
  (~ owns p s /\ to_intermediate p s = Raise TypeError).
Proof.
  intros Hp [[t Ht] | [v Hv]].
  - apply WindowsSensitivity_init_inv in Ht as [Ht ->].
    destruct Hp as [-> | ->].
    + left. split; [left; eauto|].
      destruct (getitem_tick_map t Ht) as [x Hx]. exists (Build_IntermediateSensitivity x).
      cbn [to_intermediate WindowsPlatform.platform].
      unfold WindowsPlatform.to_intermediate. now rewrite Hx.
    + right. split; [|reflexivity].
      intros [[H _] | [_ [v Hv]]]; [|discriminate].
      now apply platforms_distinct.
  - apply KDESensitivity_init_inv in Hv as [Hv ->].
    destruct Hp as [-> | ->].
    + right. split; [|reflexivity].
      intros [[_ [t Ht]] | [H _]]; [discriminate|].
      now apply platforms_distinct.
    + left. split; [right; eauto|]. eexists. reflexivity.
Qed.

(** Between the two platforms a legal value of the source is always
    converted, to a legal value of the destination. *)
Lemma convert_sensitivity_legal src dst s :
  is_platform dst -> legal_for src s ->
  exists s', convert_sensitivity src dst s = Return s' /\ legal_for dst s'.
Proof.
  intros Hdst Hs. unfold convert_sensitivity.
  destruct Hs as [[-> (t & -> & Ht)] | [-> (v & -> & Hv)]].
  - destruct (getitem_tick_map t Ht) as [x Hx].
    cbn [to_intermediate WindowsPlatform.platform].
    unfold WindowsPlatform.to_intermediate. rewrite Hx. cbn [bind].
    now apply from_intermediate_legal.
  - cbn [to_intermediate KDEPlatform.platform KDEPlatform.to_intermediate bind].
    now apply from_intermediate_legal.
Qed.

End Convert.

(** X1: between the two platforms, converting a constructed sensitivity
    returns a value of the destination's class within its legal range when
    the sensitivity is of the source's class, and raises [TypeError]
    otherwise; no other exception can come out. *)
Theorem convert_sensitivity_outcome src dst s :
  is_platform src -> is_platform dst -> constructed s ->
  (owns src s /\ exists s', convert_sensitivity src dst s = Return s' /\ legal_for dst s') \/
  (~ owns src s /\ convert_sensitivity src dst s = Raise TypeError).
Proof.
  intros Hsrc Hdst Hs. unfold convert_sensitivity.
  destruct (to_intermediate_constructed src s Hsrc Hs) as [[Ho [m Hm]] | [Ho Hm]].
  - left. split; [exact Ho|]. rewrite Hm. cbn [bind].
    now apply from_intermediate_legal.
  - right. split; [exact Ho|]. now rewrite Hm.
Qed.

Lemma convert_sensitivity_outcome_witness :
  (owns WindowsPlatform.platform (WindowsSensitivity 12) /\
   exists s', convert_sensitivity WindowsPlatform.platform KDEPlatform.platform
                (WindowsSensitivity 12) = Return s' /\
              legal_for KDEPlatform.platform s') \/
  (~ owns WindowsPlatform.platform (WindowsSensitivity 12) /\
   convert_sensitivity WindowsPlatform.platform KDEPlatform.platform
     (WindowsSensitivity 12) = Raise TypeError).
Proof.
  apply (convert_sensitivity_outcome WindowsPlatform.platform KDEPlatform.platform
           (WindowsSensitivity 12)).
  - left. reflexivity.
  - right. reflexivity.
  - left. exists 12. reflexivity.
Defined.

(** ** Lookups and the values of conversions *)

Section Lookup.

Lemma getitem_missing {V : Type} (d : list (Z * V)) k :
  ~ In k (map fst d) -> Builtins.getitem d k = Raise KeyError.
Proof.
  induction d as [|[k' v] d IH]; cbn [Builtins.getitem map fst In]; [reflexivity|].
  intros H. destruct (Z.eqb_spec k' k) as [->|Hne]; [tauto|].
  apply IH. tauto.
Qed.

Lemma tick_map_key_list :
  map fst WindowsPlatform._tick_map
  = [1; 2; 3; 4; 5; 6; 7; 8; 9; 10; 11; 12; 13; 14; 15; 16; 17; 18; 19; 20].
Proof. reflexivity. Qed.

End Lookup.

(** X2: on a [WindowsSensitivity] whose tick is outside 1..20 (an object
    whose attribute was assigned after construction) the Windows
    [to_intermediate] raises [KeyError], and only on such a tick. *)
Theorem windows_to_intermediate_key_error t :
  WindowsPlatform.to_intermediate (WindowsSensitivity t) = Raise KeyError
  <-> ~ (1 <= t <= 20).
Proof.
  unfold WindowsPlatform.to_intermediate. split.
  - intros H Ht. destruct (getitem_tick_map t Ht) as [x Hx].
    rewrite Hx in H. discriminate.
  - intros Ht. rewrite getitem_missing; [reflexivity|].
    rewrite tick_map_key_list. cbn [In]. lia.
Qed.

(** X3: converting a tick from Windows to KDE returns the table's
    multiplier minus one, computed without rounding, for the ticks up to 14,
    and 1.0 for every tick from 14 on: the ticks 15 to 20 are not told
    apart. *)
Theorem windows_to_kde_values t x :
  In (t, x) WindowsPlatform._tick_map ->
  exists r,
    (s <- WindowsSensitivity_init t ;;
     convert_sensitivity WindowsPlatform.platform KDEPlatform.platform s)
    = Return (KDESensitivity r) /\
    (t <= 14 -> r = Float.sub x (Float.of_Z 1) /\ (to_Q r == to_Q x - 1)%Q) /\
    (14 <= t -> r = Float.of_Z 1).
Proof.
  intros Hin.
  repeat (destruct Hin as [Heq|Hin];
          [injection Heq as <- <-; eexists; split; [vm_compute; reflexivity|];
           split; intros Ht; try lia; try (vm_compute; reflexivity);
           split; vm_compute; reflexivity|]).
  destruct Hin.
Qed.

Lemma windows_to_kde_values_witness :
  exists r,
    (s <- WindowsSensitivity_init 12 ;;
     convert_sensitivity WindowsPlatform.platform KDEPlatform.platform s)
    = Return (KDESensitivity r) /\
    (12 <= 14 -> r = Float.sub (Float.decimal 15 1) (Float.of_Z 1)
                 /\ (to_Q r == to_Q (Float.decimal 15 1) - 1)%Q) /\
    (14 <= 12 -> r = Float.of_Z 1).
Proof.
  apply (windows_to_kde_values 12 (Float.decimal 15 1)).
  do 11 right. left. reflexivity.
Defined.

Lemma windows_kde_windows_core t :
  1 <= t <= 20 ->
  (k <- convert_sensitivity WindowsPlatform.platform KDEPlatform.platform
          (WindowsSensitivity t) ;;
   convert_sensitivity KDEPlatform.platform WindowsPlatform.platform k)
  = Return (WindowsSensitivity (Z.min t 14)).
Proof.
  intros Ht.
  assert (Hcases : t = 1 \/ t = 2 \/ t = 3 \/ t = 4 \/ t = 5 \/ t = 6 \/ t = 7
                   \/ t = 8 \/ t = 9 \/ t = 10 \/ t = 11 \/ t = 12 \/ t = 13
                   \/ t = 14 \/ t = 15 \/ t = 16 \/ t = 17 \/ t = 18 \/ t = 19
                   \/ t = 20) by lia.
  repeat (destruct Hcases as [-> | Hcases]; [vm_compute; reflexivity|]).
  subst t. vm_compute; reflexivity.
Qed.

(** X4: converting a legal tick from Windows to KDE and back returns the
    tick itself up to 14, and 14 for every larger tick. *)
Theorem windows_kde_windows t :
  1 <= t <= 20 ->
  (s <- WindowsSensitivity_init t ;;
   k <- convert_sensitivity WindowsPlatform.platform KDEPlatform.platform s ;;
   convert_sensitivity KDEPlatform.platform WindowsPlatform.platform k)
  = Return (WindowsSensitivity (Z.min t 14)).
Proof.
  intros Ht. rewrite (WindowsSensitivity_init_ok t Ht). cbn [bind].
  now apply windows_kde_windows_core.
Qed.

Lemma windows_kde_windows_witness :
  (s <- WindowsSensitivity_init 17 ;;
   k <- convert_sensitivity WindowsPlatform.platform KDEPlatform.platform s ;;
   convert_sensitivity KDEPlatform.platform WindowsPlatform.platform k)
  = Return (WindowsSensitivity (Z.min 17 14)).
Proof. apply (windows_kde_windows 17). lia. Defined.

Section Between.

(** Rounding does not cross a value that is itself on the grid. *)
Lemma rounds_to_between S r lo hi :
  rounds_to S r ->
  (2 ^ ulp_exp S | lo) -> (2 ^ ulp_exp S | hi) ->
  lo <= S <= hi -> lo <= scaled r <= hi.
Proof.
  intros (_ & _ & Hg & He) Hlo Hhi [H1 H2].
  pose proof (pow2_pos (ulp_exp S) (ulp_exp_nonneg S)) as Hp.
  split.
  - apply (grid_ge (2 ^ ulp_exp S)); trivial. lia.
  - apply (grid_le (2 ^ ulp_exp S)); trivial. lia.
Qed.

Lemma scaled_two : scaled (Float.of_Z 2) = 2 ^ 1075.
Proof. vm_compute. reflexivity. Qed.

Lemma valid_two : Float.valid (Float.of_Z 2) = true.
Proof. vm_compute. reflexivity. Qed.

(** [1.0 + v] for a legal [v] lies between 0.0 and 2.0 and is within
    [2^-53] of the exact sum. *)
Lemma kde_multiplier_bounds v :
  Float.valid v = true -> kde_in_range v ->
  let x := Float.add (Float.of_Z 1) v in
  Float.valid x = true /\ finite_or_zero x = true /\
  0 <= scaled x <= 2 ^ 1075 /\
  Z.abs (scaled x - (2 ^ 1074 + scaled v)) <= 2 ^ 1021.
Proof.
  intros Hv Hr x.
  pose proof (kde_in_range_finite v Hr) as Hf.
  pose proof (proj1 (kde_in_range_scaled v Hv Hf) Hr) as HV.
  destruct pow2_table as (HP & H1022 & H1023 & H1073 & H1074 & H1075).
  cbv zeta in *.
  assert (H53 : 2 ^ 53 = 9007199254740992) by reflexivity.
  assert (H54 : 2 ^ 54 = 18014398509481984) by reflexivity.
  assert (H55 : 2 ^ 55 = 36028797018963968) by reflexivity.
  assert (Hbig : 2 ^ 55 * 2 ^ 1021 < 2 ^ 2097).
  { rewrite <- Z.pow_add_r by lia. apply pow2_lt. lia. }
  assert (Hx : rounds_to (2 ^ 1074 + scaled v) x).
  { rewrite <- scaled_one. apply (add_spec _ v valid_one eq_refl Hv Hf).
    rewrite scaled_one. lia. }
  assert (Hk : ulp_exp (2 ^ 1074 + scaled v) <= 1023).
  { apply ulp_exp_bound; [lia|]. change (53 + 1023) with (55 + 1021).
    rewrite Z.pow_add_r by lia. lia. }
  pose proof (ulp_exp_nonneg (2 ^ 1074 + scaled v)) as Hk0.
  destruct (rounds_to_between _ x 0 (2 ^ 1075) Hx) as [Hlo Hhi].
  - apply Z.divide_0_r.
  - apply pow2_divide. lia.
  - lia.
  - destruct Hx as (Hvx & Hfx & Hgx & Hex).
    split; [exact Hvx|]. split; [exact Hfx|]. split; [lia|].
    destruct (Z.eq_dec (scaled v) (2 ^ 1074)) as [Heq|Hne].
    + (* v = 1.0: the sum is exactly 2.0 *)
      assert (E : scaled x = 2 ^ 1074 + scaled v).
      { apply (rounds_to_exact _ _ 1023 (conj Hvx (conj Hfx (conj Hgx Hex)))); [lia| |].
        - rewrite Heq. replace (2 ^ 1074 + 2 ^ 1074) with (2 ^ 1075) by lia.
          apply pow2_divide. lia.
        - change (53 + 1023) with (55 + 1021). rewrite Z.pow_add_r by lia. lia. }
      rewrite E, Z.sub_diag. cbn. lia.
    + assert (Hk' : ulp_exp (2 ^ 1074 + scaled v) <= 1022).
      { apply ulp_exp_bound; [lia|]. change (53 + 1022) with 1075. lia. }
      pose proof (pow2_le (ulp_exp (2 ^ 1074 + scaled v)) 1022 (conj Hk0 Hk')).
      lia.
Qed.

End Between.

(** X5: the KDE [to_intermediate] sends every legal value [v] to a
    multiplier between 0.0 and 2.0 that is within [2^-53] of [1 + v]. *)
Theorem kde_to_intermediate_range v :
  Float.valid v = true -> kde_in_range v ->
  exists m,
    (s <- KDESensitivity_init v ;; KDEPlatform.to_intermediate s) = Return m /\
    Float.leb (S754_zero false) (multiplier m) = true /\
    Float.leb (multiplier m) (Float.of_Z 2) = true /\
    (Qabs (to_Q (multiplier m) - (1 + to_Q v)) <= 1 # 2 ^ 53)%Q.
Proof.
  intros Hv Hr.
  destruct (kde_multiplier_bounds v Hv Hr) as (Hvx & Hfx & Hb & He).
  exists (Build_IntermediateSensitivity (Float.add (Float.of_Z 1) v)).
  split; [|split; [|split]].
  - rewrite (KDESensitivity_init_ok v Hr). reflexivity.
  - cbn [multiplier].
    apply (leb_scaled (S754_zero false) _ eq_refl eq_refl Hvx Hfx).
    cbn [scaled]. lia.
  - cbn [multiplier]. apply (leb_scaled _ _ Hvx Hfx valid_two eq_refl).
    rewrite scaled_two. lia.
  - cbn [multiplier].
    assert (E : (1 + to_Q v == to_Q (Float.of_Z 1) + to_Q v)%Q).
    { apply Qplus_comp; [|reflexivity].
      unfold to_Q, Qeq. cbn [Qnum Qden]. rewrite scaled_one, pos_pow_1074. lia. }
    rewrite E. unfold to_Q, Qminus, Qplus, Qopp, Qabs, Qle. cbn [Qnum Qden].
    rewrite !Pos2Z.inj_mul, pos_pow_1074, scaled_one.
    assert (H53 : Z.pos (2 ^ 53) = 2 ^ 53) by (now rewrite Pos2Z.inj_pow).
    rewrite H53.
    assert (H1074 : 2 ^ 1074 = 2 ^ 53 * 2 ^ 1021).
    { rewrite <- Z.pow_add_r by lia. reflexivity. }
    assert (HP : 0 < 2 ^ 1021) by (apply pow2_pos; lia).
    assert (Hq : 0 < 2 ^ 53) by (apply pow2_pos; lia).
    set (X := scaled (Float.add (Float.of_Z 1) v)) in *.
    set (V := scaled v) in *. set (D := 2 ^ 1074) in *.
    replace (X * (D * D) + - (D * D + V * D) * D)
      with ((X - (D + V)) * (D * D)) by ring.
    rewrite Z.abs_mul, (Z.abs_eq (D * D)) by nia.
    rewrite Z.mul_1_l.
    assert (Hle : Z.abs (X - (D + V)) * 2 ^ 53 <= D).
    { rewrite H1074. rewrite (Z.mul_comm (2 ^ 53) (2 ^ 1021)).
      apply Z.mul_le_mono_nonneg_r; lia. }
    replace (Z.abs (X - (D + V)) * (D * D) * 2 ^ 53)
      with (Z.abs (X - (D + V)) * 2 ^ 53 * (D * D)) by ring.
    replace (D * D * D) with (D * (D * D)) by ring.
    apply Z.mul_le_mono_nonneg_r; [nia | exact Hle].
Qed.

Lemma kde_to_intermediate_range_witness :
  exists m,
    (s <- KDESensitivity_init (Float.decimal 1 1) ;; KDEPlatform.to_intermediate s)
    = Return m /\
    Float.leb (S754_zero false) (multiplier m) = true /\
    Float.leb (multiplier m) (Float.of_Z 2) = true /\
    (Qabs (to_Q (multiplier m) - (1 + to_Q (Float.decimal 1 1))) <= 1 # 2 ^ 53)%Q.
Proof.
  apply (kde_to_intermediate_range (Float.decimal 1 1)).
  - vm_compute. reflexivity.
  - split; vm_compute; reflexivity.
Defined.

(** ** Windows: the scan finds the nearest entry *)

Section NearestTick.

Import WindowsPlatform.

Lemma pow2_table_1067 :
  let Q0 := 2 ^ 1067 in
  0 < Q0 /\ 2 ^ 1068 = 2 * Q0 /\ 2 ^ 1069 = 4 * Q0 /\ 2 ^ 1073 = 64 * Q0 /\
  2 ^ 1120 = 2 ^ 53 * Q0 /\ 2 ^ 1121 = 2 ^ 54 * Q0 /\ 2 ^ 1122 = 2 ^ 55 * Q0.
Proof.
  intros Q0. unfold Q0. split; [now apply pow2_pos|].
  change 1068 with (1 + 1067). change 1069 with (2 + 1067).
  change 1073 with (6 + 1067). change 1120 with (53 + 1067).
  change 1121 with (54 + 1067). change 1122 with (55 + 1067).
  rewrite !(Z.pow_add_r 2 _ 1067) by lia. now repeat split.
Qed.

Lemma moderate_inv m :
  moderate m ->
  Float.valid (multiplier m) = true /\ finite_or_zero (multiplier m) = true /\
  Z.abs (scaled (multiplier m)) <= 2 ^ 1120.
Proof.
  intros [Hv Hle].
  assert (Hf : finite_or_zero (multiplier m) = true).
  { revert Hle. destruct (multiplier m) as [| | |]; try reflexivity; discriminate. }
  split; [exact Hv|]. split; [exact Hf|].
  rewrite <- abs_scaled.
  assert (E : scaled (Float.of_Z (2 ^ 46)) = 2 ^ 1120) by (vm_compute; reflexivity).
  assert (Hvb : Float.valid (Float.of_Z (2 ^ 46)) = true) by (vm_compute; reflexivity).
  assert (Hva : Float.valid (Float.abs (multiplier m)) = true) by now rewrite abs_valid.
  assert (Hfa : finite_or_zero (Float.abs (multiplier m)) = true)
    by now rewrite abs_finite_or_zero.
  rewrite <- E. exact (proj1 (leb_scaled _ _ Hva Hfa Hvb eq_refl) Hle).
Qed.

Lemma ulp_exp_upper S : Z.abs S < 2 ^ (53 + ulp_exp S).
Proof.
  unfold ulp_exp.
  destruct (Z.eq_dec (Z.abs S) 0) as [->|Hne].
  - cbn. lia.
  - assert (Hpos : 0 < Z.abs S) by lia.
    destruct (Z.log2_spec (Z.abs S) Hpos) as [_ Hhi].
    apply Z.lt_le_trans with (2 ^ Z.succ (Z.log2 (Z.abs S))); trivial.
    apply pow2_le. pose proof (Z.log2_nonneg (Z.abs S)). lia.
Qed.

(** The key of the scan is within [2^-7] of the exact distance. *)
Lemma key_error m kv :
  moderate m -> In kv _tick_map ->
  Float.valid (distance m kv) = true /\
  finite_or_zero (distance m kv) = true /\
  Z.abs (scaled (distance m kv) - exact_distance m kv) <= 2 ^ 1067.
Proof.
  intros Hm Hin.
  destruct (moderate_inv m Hm) as (Hv & Hf & Hb).
  destruct (tick_map_values kv Hin) as (Hvx & Hfx & Hgx & Hbx).
  destruct pow2_table_1067 as (HQ & H1068 & H1069 & H1073 & H1120 & H1121 & H1122).
  cbv zeta in *.
  assert (H53 : 2 ^ 53 = 9007199254740992) by reflexivity.
  assert (H54 : 2 ^ 54 = 18014398509481984) by reflexivity.
  pose proof (pow2_lt 1121 2097 ltac:(lia)) as Hbig.
  assert (Hs : rounds_to (scaled (snd kv) - scaled (multiplier m))
                         (Float.sub (snd kv) (multiplier m))).
  { apply sub_spec; trivial. lia. }
  assert (Hk : ulp_exp (scaled (snd kv) - scaled (multiplier m)) <= 1068).
  { apply ulp_exp_bound; [lia|]. change (53 + 1068) with 1121. lia. }
  pose proof (pow2_le _ 1068 (conj (ulp_exp_nonneg _) Hk)) as Hle.
  destruct Hs as (Hvs & Hfs & _ & He).
  unfold distance, exact_distance.
  rewrite abs_valid, abs_finite_or_zero, abs_scaled.
  split; [exact Hvs|]. split; [exact Hfs|]. lia.
Qed.

(** For a table entry that is at most twice the multiplier the key of the
    scan is the exact distance. *)
Lemma key_exact m kv :
  moderate m -> In kv _tick_map ->
  scaled (snd kv) <= 2 * scaled (multiplier m) ->
  scaled (distance m kv) = exact_distance m kv.
Proof.
  intros Hm Hin Hle.
  destruct (moderate_inv m Hm) as (Hv & Hf & Hb).
  destruct (tick_map_values kv Hin) as (Hvx & Hfx & Hgx & Hbx).
  destruct pow2_table_1067 as (HQ & H1068 & H1069 & H1073 & H1120 & H1121 & H1122).
  cbv zeta in *.
  assert (H53 : 2 ^ 53 = 9007199254740992) by reflexivity.
  assert (H54 : 2 ^ 54 = 18014398509481984) by reflexivity.
  assert (H55 : 2 ^ 55 = 36028797018963968) by reflexivity.
  pose proof (pow2_lt 1121 2097 ltac:(lia)) as Hbig.
  set (M := scaled (multiplier m)) in *. set (X := scaled (snd kv)) in *.
  assert (Hs : rounds_to (X - M) (Float.sub (snd kv) (multiplier m))).
  { apply sub_spec; trivial. fold X M. lia. }
  assert (Hj : ulp_exp M <= 1069).
  { apply ulp_exp_bound; [lia|]. change (53 + 1069) with 1122. lia. }
  pose proof (ulp_exp_nonneg M) as Hj0.
  pose proof (ulp_exp_upper M) as Hup.
  assert (HgM : (2 ^ ulp_exp M | M)).
  { now destruct (rounds_to_self (multiplier m) Hv Hf) as (_ & _ & Hg & _). }
  assert (He : scaled (Float.sub (snd kv) (multiplier m)) = X - M).
  { apply (rounds_to_exact _ _ (ulp_exp M) Hs); trivial.
    - apply Z.divide_sub_r; trivial.
      apply Z.divide_trans with (2 ^ 1069); trivial. now apply pow2_divide.
    - lia. }
  unfold distance, exact_distance. fold X M. now rewrite abs_scaled, He.
Qed.

(** Entries on the same side of the multiplier differ in distance by the
    difference of their values, a multiple of 1/32. *)
Lemma key_strict m kv1 kv2 :
  moderate m -> In kv1 _tick_map -> In kv2 _tick_map ->
  exact_distance m kv1 < exact_distance m kv2 ->
  scaled (distance m kv1) < scaled (distance m kv2).
Proof.
  intros Hm H1 H2 Hlt.
  destruct (key_error m kv1 Hm H1) as (_ & _ & He1).
  destruct (key_error m kv2 Hm H2) as (_ & _ & He2).
  destruct (tick_map_values kv1 H1) as (_ & _ & Hg1 & Hb1).
  destruct (tick_map_values kv2 H2) as (_ & _ & Hg2 & Hb2).
  destruct pow2_table_1067 as (HQ & H1068 & H1069 & H1073 & H1120 & H1121 & H1122).
  cbv zeta in *.
  set (P := 2 ^ 1069) in *.
  assert (HP : 0 < P) by lia.
  destruct (Z_lt_le_dec (exact_distance m kv2) (exact_distance m kv1 + P))
    as [Hnear|Hfar]; [|lia].
  (* the distances are less than 1/32 apart: the entries lie on the two
     sides of the multiplier, and neither exceeds twice the multiplier *)
  unfold exact_distance in Hlt, Hnear.
  set (M := scaled (multiplier m)) in *.
  set (X1 := scaled (snd kv1)) in *. set (X2 := scaled (snd kv2)) in *.
  assert (Hsame : X1 <= X2 -> X2 < X1 + P -> X1 = X2).
  { intros Ha Hb. pose proof (grid_le P X2 X1 HP Hg2 Hg1 Hb). lia. }
  assert (Hsame' : X2 <= X1 -> X1 < X2 + P -> X1 = X2).
  { intros Ha Hb. pose proof (grid_le P X1 X2 HP Hg1 Hg2 Hb). lia. }
  assert (Hp1 : P <= X1).
  { apply (grid_ge P); trivial; [apply Z.divide_refl | lia]. }
  assert (Hp2 : P <= X2).
  { apply (grid_ge P); trivial; [apply Z.divide_refl | lia]. }
  assert (Hx1 : X1 <= 2 * M) by lia.
  assert (Hx2 : X2 <= 2 * M) by lia.
  rewrite (key_exact m kv1 Hm H1 Hx1), (key_exact m kv2 Hm H2 Hx2).
  unfold exact_distance. fold M X1 X2. lia.
Qed.

Lemma key_tie m kv1 kv2 :
  moderate m -> In kv1 _tick_map -> In kv2 _tick_map ->
  scaled (snd kv1) <> scaled (snd kv2) ->
  exact_distance m kv1 = exact_distance m kv2 ->
  scaled (distance m kv1) = scaled (distance m kv2).
Proof.
  intros Hm H1 H2 Hne Heq.
  destruct (tick_map_values kv1 H1) as (_ & _ & _ & Hb1).
  destruct (tick_map_values kv2 H2) as (_ & _ & _ & Hb2).
  unfold exact_distance in Heq.
  assert (Hx1 : scaled (snd kv1) <= 2 * scaled (multiplier m)) by lia.
  assert (Hx2 : scaled (snd kv2) <= 2 * scaled (multiplier m)) by lia.
  rewrite (key_exact m kv1 Hm H1 Hx1), (key_exact m kv2 Hm H2 Hx2).
  unfold exact_distance. exact Heq.
Qed.

Lemma tick_map_value_tick kv1 kv2 :
  In kv1 _tick_map -> In kv2 _tick_map ->
  scaled (snd kv1) = scaled (snd kv2) -> fst kv1 = fst kv2.
Proof.
  intros H1 H2 Heq.
  destruct (Z.lt_total (fst kv1) (fst kv2)) as [Hlt|[E|Hgt]]; trivial.
  - pose proof (tick_map_exact_increasing kv1 kv2 H1 H2 Hlt). lia.
  - pose proof (tick_map_exact_increasing kv2 kv1 H2 H1 Hgt). lia.
Qed.

(** On a moderate multiplier the scan finds the entry that is exactly
    nearest, and of two entries that are exactly as near the one with the
    smaller tick. *)
Lemma from_intermediate_nearest m :
  moderate m ->
  exists r xr,
    from_intermediate m = Return (WindowsSensitivity r) /\
    In (r, xr) _tick_map /\
    (forall kv, In kv _tick_map ->
                exact_distance m (r, xr) <= exact_distance m kv) /\
    (forall kv, In kv _tick_map ->
                exact_distance m kv = exact_distance m (r, xr) -> r <= fst kv).
Proof.
  intros Hm.
  destruct (moderate_inv m Hm) as (Hv & Hf & Hb).
  assert (Hnan : Float.is_nan (multiplier m) = false)
    by (now destruct (multiplier m)).
  destruct (from_intermediate_first m Hnan) as (r & xr & Hr & Hin & Hmin & Hfirst).
  destruct (key_error m (r, xr) Hm Hin) as (Hvr & Hfr & _).
  exists r, xr. split; [exact Hr|]. split; [exact Hin|]. split.
  - intros kv Hkv.
    destruct (Z_le_gt_dec (exact_distance m (r, xr)) (exact_distance m kv))
      as [Hle|Hgt]; trivial.
    pose proof (key_strict m kv (r, xr) Hm Hkv Hin ltac:(lia)) as Hlt.
    destruct (key_error m kv Hm Hkv) as (Hvk & Hfk & _).
    specialize (Hmin kv Hkv).
    pose proof (proj1 (leb_scaled _ _ Hvr Hfr Hvk Hfk) Hmin). lia.
  - intros kv Hkv Heq.
    destruct (Z.eq_dec (scaled (snd kv)) (scaled xr)) as [Hx|Hx].
    + pose proof (tick_map_value_tick kv (r, xr) Hkv Hin Hx) as E.
      cbn [fst] in E. lia.
    + apply (Hfirst kv Hkv).
      destruct (key_error m kv Hm Hkv) as (Hvk & Hfk & _).
      apply (proj2 (eqb_scaled _ _ Hvk Hfk Hvr Hfr)). now apply key_tie.
Qed.

End NearestTick.

Section Quantization.

Import WindowsPlatform.

Lemma ltb_scaled x y :
  Float.valid x = true -> finite_or_zero x = true ->
  Float.valid y = true -> finite_or_zero y = true ->
  Float.ltb x y = true <-> scaled x < scaled y.
Proof.
  intros. unfold Float.ltb, SFltb. rewrite compare_scaled by assumption.
  destruct (Z.compare_spec (scaled x) (scaled y)); split; intros; try lia;
    try reflexivity; discriminate.
Qed.

(** A larger multiplier is never sent to a smaller tick. *)
Lemma from_intermediate_monotone_core m1 m2 t1 t2 :
  moderate m1 -> moderate m2 ->
  scaled (multiplier m1) <= scaled (multiplier m2) ->
  from_intermediate m1 = Return (WindowsSensitivity t1) ->
  from_intermediate m2 = Return (WindowsSensitivity t2) ->
  t1 <= t2.
Proof.
  intros Hm1 Hm2 Hle E1 E2.
  destruct (from_intermediate_nearest m1 Hm1) as (r1 & x1 & Hr1 & Hin1 & Hmin1 & Hfst1).
  destruct (from_intermediate_nearest m2 Hm2) as (r2 & x2 & Hr2 & Hin2 & Hmin2 & Hfst2).
  rewrite Hr1 in E1. rewrite Hr2 in E2.
  injection E1 as <-. injection E2 as <-.
  destruct (Z_le_gt_dec r1 r2) as [|Hgt]; trivial. exfalso.
  pose proof (tick_map_exact_increasing (r2, x2) (r1, x1) Hin2 Hin1 ltac:(cbn; lia)) as Hx.
  cbn [snd] in Hx.
  pose proof (Hmin1 _ Hin2) as Ha. pose proof (Hfst1 _ Hin2) as Hb.
  pose proof (Hmin2 _ Hin1) as Hc.
  unfold exact_distance in *. cbn [snd fst] in *. lia.
Qed.

(** The entries above tick 14 are larger than 2.0, those up to tick 14 are
    not. *)
Lemma tick_map_above_two kv :
  In kv _tick_map ->
  (14 < fst kv -> 2 ^ 1075 < scaled (snd kv)) /\
  (fst kv = 14 -> scaled (snd kv) = 2 ^ 1075).
Proof.
  intros Hin.
  assert (Hall : forallb (fun kv =>
            (negb (14 <? fst kv) || (2 ^ 1075 <? scaled (snd kv)))
            && (negb (fst kv =? 14) || (scaled (snd kv) =? 2 ^ 1075)))
          _tick_map = true) by (vm_compute; reflexivity).
  pose proof (tick_map_forallb _ Hall kv Hin) as H. cbv beta in H.
  apply andb_true_iff in H as [Ha Hb]. split; intros Ht.
  - apply orb_true_iff in Ha as [Ha|Ha]; [|now apply Z.ltb_lt].
    apply negb_true_iff, Z.ltb_ge in Ha. lia.
  - apply orb_true_iff in Hb as [Hb|Hb]; [|now apply Z.eqb_eq].
    apply negb_true_iff, Z.eqb_neq in Hb. lia.
Qed.

Lemma tick_14_in : In (14, Float.of_Z 2) _tick_map.
Proof. do 13 right. left. reflexivity. Qed.

(** A moderate multiplier of at most 2.0 is sent to a tick of at most 14. *)
Lemma from_intermediate_at_most_two m :
  moderate m -> scaled (multiplier m) <= 2 ^ 1075 ->
  exists t, from_intermediate m = Return (WindowsSensitivity t) /\ 1 <= t <= 14.
Proof.
  intros Hm Hle.
  destruct (from_intermediate_nearest m Hm) as (r & xr & Hr & Hin & Hmin & Hfst).
  exists r. split; [exact Hr|].
  pose proof (tick_map_keys _ Hin) as Hk. cbn [fst] in Hk.
  split; [lia|].
  destruct (Z_le_gt_dec r 14) as [|Hgt]; trivial. exfalso.
  destruct (tick_map_above_two _ Hin) as [Ha _]. cbn [fst snd] in Ha.
  specialize (Ha ltac:(lia)).
  pose proof (Hmin _ tick_14_in) as Hd.
  unfold exact_distance in Hd. cbn [snd] in Hd. rewrite scaled_two in Hd. lia.
Qed.

(** The multiplier of a legal KDE value is moderate. *)
Lemma kde_multiplier_moderate v :
  Float.valid v = true -> kde_in_range v ->
  moderate (Build_IntermediateSensitivity (Float.add (Float.of_Z 1) v)) /\
  scaled (Float.add (Float.of_Z 1) v) <= 2 ^ 1075.
Proof.
  intros Hv Hr.
  destruct (kde_multiplier_bounds v Hv Hr) as (Hvx & Hfx & Hb & _).
  split; [|lia]. split; [exact Hvx|]. cbn [multiplier].
  assert (Hvb : Float.valid (Float.of_Z (2 ^ 46)) = true) by (vm_compute; reflexivity).
  assert (E : scaled (Float.of_Z (2 ^ 46)) = 2 ^ 1120) by (vm_compute; reflexivity).
  assert (Hva : Float.valid (Float.abs (Float.add (Float.of_Z 1) v)) = true)
    by now rewrite abs_valid.
  assert (Hfa : finite_or_zero (Float.abs (Float.add (Float.of_Z 1) v)) = true)
    by now rewrite abs_finite_or_zero.
  apply (proj2 (leb_scaled _ _ Hva Hfa Hvb eq_refl)).
  rewrite abs_scaled, E. pose proof (pow2_lt 1075 1120 ltac:(lia)). lia.
Qed.

Lemma kde_to_windows_core v :
  Float.valid v = true -> kde_in_range v ->
  exists t,
    convert_sensitivity KDEPlatform.platform WindowsPlatform.platform (KDESensitivity v)
    = Return (WindowsSensitivity t) /\ 1 <= t <= 14.
Proof.
  intros Hv Hr. destruct (kde_multiplier_moderate v Hv Hr) as [Hm Hle].
  unfold convert_sensitivity. cbn [to_intermediate from_intermediate KDEPlatform.platform
    WindowsPlatform.platform KDEPlatform.to_intermediate bind].
  now apply from_intermediate_at_most_two.
Qed.

End Quantization.

(** X6: for every multiplier of magnitude at most [2^46] the Windows
    [from_intermediate] returns a tick whose multiplier is exactly nearest,
    and the smallest such tick: the rounding of the subtractions never
    changes the outcome of the scan. *)
Theorem windows_from_intermediate_nearest m :
  moderate m ->
  exists r xr,
    WindowsPlatform.from_intermediate m = Return (WindowsSensitivity r) /\
    In (r, xr) WindowsPlatform._tick_map /\
    (forall t x, In (t, x) WindowsPlatform._tick_map ->
                 exact_distance m (r, xr) <= exact_distance m (t, x)) /\
    (forall t x, In (t, x) WindowsPlatform._tick_map ->
                 exact_distance m (t, x) = exact_distance m (r, xr) -> r <= t).
Proof.
  intros Hm.
  destruct (from_intermediate_nearest m Hm) as (r & xr & Hr & Hin & Hmin & Hfst).
  exists r, xr. split; [exact Hr|]. split; [exact Hin|]. split.
  - intros t x Ht. now apply Hmin.
  - intros t x Ht. now apply (Hfst (t, x)).
Qed.

Lemma windows_from_intermediate_nearest_witness :
  exists r xr,
    WindowsPlatform.from_intermediate (Build_IntermediateSensitivity (Float.decimal 13 1))
    = Return (WindowsSensitivity r) /\
    In (r, xr) WindowsPlatform._tick_map /\
    (forall t x, In (t, x) WindowsPlatform._tick_map ->
       exact_distance (Build_IntermediateSensitivity (Float.decimal 13 1)) (r, xr)
       <= exact_distance (Build_IntermediateSensitivity (Float.decimal 13 1)) (t, x)) /\
    (forall t x, In (t, x) WindowsPlatform._tick_map ->
       exact_distance (Build_IntermediateSensitivity (Float.decimal 13 1)) (t, x)
       = exact_distance (Build_IntermediateSensitivity (Float.decimal 13 1)) (r, xr) ->
       r <= t).
Proof.
  apply (windows_from_intermediate_nearest
           (Build_IntermediateSensitivity (Float.decimal 13 1))).
  split; vm_compute; reflexivity.
Defined.

(** X7: on multipliers of magnitude at most [2^46] the Windows
    [from_intermediate] is monotone: a larger multiplier is never sent to a
    smaller tick. *)
Theorem windows_from_intermediate_monotone m1 m2 t1 t2 :
  moderate m1 -> moderate m2 ->
  Float.leb (multiplier m1) (multiplier m2) = true ->
  WindowsPlatform.from_intermediate m1 = Return (WindowsSensitivity t1) ->
  WindowsPlatform.from_intermediate m2 = Return (WindowsSensitivity t2) ->
  t1 <= t2.
Proof.
  intros Hm1 Hm2 Hle.
  apply from_intermediate_monotone_core; trivial.
  destruct (moderate_inv m1 Hm1) as (Hv1 & Hf1 & _).
  destruct (moderate_inv m2 Hm2) as (Hv2 & Hf2 & _).
  exact (proj1 (leb_scaled _ _ Hv1 Hf1 Hv2 Hf2) Hle).
Qed.

Lemma windows_from_intermediate_monotone_witness : 8 <= 11.
Proof.
  apply (windows_from_intermediate_monotone
           (Build_IntermediateSensitivity (Float.decimal 7 1))
           (Build_IntermediateSensitivity (Float.decimal 13 1)) 8 11).
  - split; vm_compute; reflexivity.
  - split; vm_compute; reflexivity.
  - vm_compute. reflexivity.
  - vm_compute. reflexivity.
  - vm_compute. reflexivity.
Defined.

(** X8: converting a legal KDE value to Windows always returns a tick
    between 1 and 14; the ticks 15 to 20 are never reached. *)
Theorem kde_to_windows_range v :
  Float.valid v = true -> kde_in_range v ->
  exists t,
    (s <- KDESensitivity_init v ;;
     convert_sensitivity KDEPlatform.platform WindowsPlatform.platform s)
    = Return (WindowsSensitivity t) /\ 1 <= t <= 14.
Proof.
  intros Hv Hr. rewrite (KDESensitivity_init_ok v Hr). cbn [bind].
  now apply kde_to_windows_core.
Qed.

Lemma kde_to_windows_range_witness :
  exists t,
    (s <- KDESensitivity_init (Float.decimal 1 1) ;;
     convert_sensitivity KDEPlatform.platform WindowsPlatform.platform s)
    = Return (WindowsSensitivity t) /\ 1 <= t <= 14.
Proof.
  apply (kde_to_windows_range (Float.decimal 1 1)).
  - vm_compute. reflexivity.
  - split; vm_compute; reflexivity.
Defined.

(** X9: a tick obtained from a legal KDE value is stable: converting it
    to KDE and to Windows again returns the same tick. *)
Theorem kde_windows_idempotent v :
  Float.valid v = true -> kde_in_range v ->
  (s <- KDESensitivity_init v ;;
   w <- convert_sensitivity KDEPlatform.platform WindowsPlatform.platform s ;;
   k <- convert_sensitivity WindowsPlatform.platform KDEPlatform.platform w ;;
   convert_sensitivity KDEPlatform.platform WindowsPlatform.platform k)
  = (s <- KDESensitivity_init v ;;
     convert_sensitivity KDEPlatform.platform WindowsPlatform.platform s).
Proof.
  intros Hv Hr. rewrite (KDESensitivity_init_ok v Hr). cbn [bind].
  destruct (kde_to_windows_core v Hv Hr) as (t & Ht & Hb).
  rewrite Ht. cbn [bind].
  rewrite (windows_kde_windows_core t ltac:(lia)).
  f_equal. f_equal. lia.
Qed.

Lemma kde_windows_idempotent_witness :
  (s <- KDESensitivity_init (Float.decimal 1 1) ;;
   w <- convert_sensitivity KDEPlatform.platform WindowsPlatform.platform s ;;
   k <- convert_sensitivity WindowsPlatform.platform KDEPlatform.platform w ;;
   convert_sensitivity KDEPlatform.platform WindowsPlatform.platform k)
  = (s <- KDESensitivity_init (Float.decimal 1 1) ;;
     convert_sensitivity KDEPlatform.platform WindowsPlatform.platform s).
Proof.
  apply (kde_windows_idempotent (Float.decimal 1 1)).
  - vm_compute. reflexivity.
  - split; vm_compute; reflexivity.
Defined.

(** ** Windows: multipliers that absorb the table *)

Section Absorption.

Import WindowsPlatform.

Lemma min_scan_keeps_first {A : Type} (key : A -> float) (l : list A) best :
  (forall y, In y l -> Float.ltb (key y) (key best) = false) ->
  Builtins.min_scan key best (key best) l = best.
Proof.
  induction l as [|x l IH]; intros H; cbn [Builtins.min_scan]; [reflexivity|].
  rewrite (H x (or_introl eq_refl)). apply IH.
  intros y Hy. apply H. now right.
Qed.

Lemma from_intermediate_keeps_first m :
  (forall kv, In kv _tick_map ->
     Float.ltb (distance m kv) (distance m (1, Float.truediv 1 32)) = false) ->
  from_intermediate m = Return (WindowsSensitivity 1).
Proof.
  intros H. unfold from_intermediate, Builtins.items, _tick_map.
  cbn [Builtins.min_key bind].
  rewrite min_scan_keeps_first; [reflexivity|].
  intros y Hy. apply H. right. exact Hy.
Qed.

Lemma grid_eq_lt G a b :
  0 < G -> (G | a) -> (G | b) -> Z.abs (a - b) < G -> a = b.
Proof.
  intros HG [za ->] [zb ->] H.
  replace (za * G - zb * G) with ((za - zb) * G) in H by ring.
  rewrite Z.abs_mul, (Z.abs_eq G) in H by lia.
  assert (Z.abs (za - zb) < 1).
  { apply (Z.mul_lt_mono_pos_r G); lia. }
  f_equal. lia.
Qed.

Lemma huge_inv m :
  huge m ->
  Float.valid (multiplier m) = true /\ finite_or_zero (multiplier m) = true /\
  2 ^ 1131 <= Z.abs (scaled (multiplier m)) <= 2 ^ 2096.
Proof.
  intros (Hv & Hlo & Hhi).
  assert (Hf : finite_or_zero (multiplier m) = true).
  { revert Hhi. destruct (multiplier m) as [| | |]; try reflexivity; discriminate. }
  split; [exact Hv|]. split; [exact Hf|].
  assert (Hva : Float.valid (Float.abs (multiplier m)) = true) by now rewrite abs_valid.
  assert (Hfa : finite_or_zero (Float.abs (multiplier m)) = true)
    by now rewrite abs_finite_or_zero.
  assert (Hv1 : Float.valid (Float.of_Z (2 ^ 57)) = true) by (vm_compute; reflexivity).
  assert (Hv2 : Float.valid (Float.of_Z (2 ^ 1022)) = true) by (vm_compute; reflexivity).
  assert (E1 : scaled (Float.of_Z (2 ^ 57)) = 2 ^ 1131) by (vm_compute; reflexivity).
  assert (E2 : scaled (Float.of_Z (2 ^ 1022)) = 2 ^ 2096) by (vm_compute; reflexivity).
  rewrite <- abs_scaled, <- E1, <- E2. split.
  - exact (proj1 (leb_scaled _ _ Hv1 eq_refl Hva Hfa) Hlo).
  - exact (proj1 (leb_scaled _ _ Hva Hfa Hv2 eq_refl) Hhi).
Qed.

(** Subtracting a huge multiplier from a table entry returns the negated
    multiplier: every key of the scan is the magnitude of the multiplier. *)
Lemma key_absorbed m kv :
  huge m -> In kv _tick_map ->
  Float.valid (distance m kv) = true /\
  finite_or_zero (distance m kv) = true /\
  scaled (distance m kv) = Z.abs (scaled (multiplier m)).
Proof.
  intros Hm Hin.
  destruct (huge_inv m Hm) as (Hv & Hf & Hlo & Hhi).
  destruct (tick_map_values kv Hin) as (Hvx & Hfx & Hgx & Hbx).
  set (M := scaled (multiplier m)) in *. set (X := scaled (snd kv)) in *.
  assert (H1076 : 2 ^ 1076 = 8 * 2 ^ 1073).
  { change 1076 with (3 + 1073). now rewrite Z.pow_add_r by lia. }
  pose proof (pow2_pos 1073 ltac:(lia)) as Hp1073.
  pose proof (pow2_lt 1076 1077 ltac:(lia)) as H77.
  pose proof (pow2_lt 1077 1130 ltac:(lia)) as H1130.
  assert (H1131 : 2 ^ 1131 = 2 * 2 ^ 1130).
  { change 1131 with (1 + 1130). now rewrite Z.pow_add_r by lia. }
  assert (H2097 : 2 ^ 2097 = 2 * 2 ^ 2096).
  { change 2097 with (1 + 2096). now rewrite Z.pow_add_r by lia. }
  pose proof (pow2_lt 1131 2096 ltac:(lia)) as H2096.
  assert (Hs : rounds_to (X - M) (Float.sub (snd kv) (multiplier m))).
  { apply sub_spec; trivial. fold X M. lia. }
  (* the grid of the multiplier *)
  assert (HgM : (2 ^ ulp_exp M | M)).
  { now destruct (rounds_to_self (multiplier m) Hv Hf) as (_ & _ & Hg & _). }
  assert (Hj : 1079 <= ulp_exp M).
  { apply ulp_exp_ge; [lia|]. change (52 + 1079) with 1131. lia. }
  pose proof (ulp_exp_upper M) as HupM.
  pose proof (pow2_le 1077 (ulp_exp M) ltac:(lia)) as HleM.
  (* the difference lies in the binade of the multiplier or in the one below *)
  assert (Hk1 : 1078 <= ulp_exp (X - M)).
  { apply ulp_exp_ge; [lia|]. change (52 + 1078) with 1130. lia. }
  assert (Hk2 : ulp_exp (X - M) <= ulp_exp M).
  { apply ulp_exp_bound; [lia|].
    assert (HaM : Z.abs M <= 2 ^ (53 + ulp_exp M) - 2 ^ ulp_exp M).
    { assert (Hdiv : (2 ^ ulp_exp M | 2 ^ (53 + ulp_exp M))) by (apply pow2_divide; lia).
      pose proof (pow2_pos (ulp_exp M) ltac:(lia)) as Hpj.
      assert (HgA : (2 ^ ulp_exp M | Z.abs M)) by now apply Z.divide_abs_r.
      assert (Hd' : (2 ^ ulp_exp M | 2 ^ (53 + ulp_exp M) - 2 ^ ulp_exp M)).
      { apply Z.divide_sub_r; trivial. apply Z.divide_refl. }
      apply (grid_le (2 ^ ulp_exp M)); trivial. lia. }
    lia. }
  pose proof (pow2_le 1078 (ulp_exp (X - M)) ltac:(lia)) as Hle78.
  assert (H1078 : 2 ^ 1078 = 2 * 2 ^ 1077).
  { change 1078 with (1 + 1077). now rewrite Z.pow_add_r by lia. }
  destruct Hs as (Hvs & Hfs & Hgs & Hes).
  assert (He : scaled (Float.sub (snd kv) (multiplier m)) = - M).
  { apply (grid_eq_lt (2 ^ ulp_exp (X - M))); trivial.
    - apply pow2_pos. lia.
    - apply Z.divide_opp_r. apply Z.divide_trans with (2 ^ ulp_exp M); trivial.
      apply pow2_divide. lia.
    - lia. }
  unfold distance. rewrite abs_valid, abs_finite_or_zero, abs_scaled, He.
  fold M. rewrite Z.abs_opp. auto.
Qed.

Lemma from_intermediate_huge m :
  huge m -> from_intermediate m = Return (WindowsSensitivity 1).
Proof.
  intros Hm. apply from_intermediate_keeps_first. intros kv Hin.
  destruct (key_absorbed m kv Hm Hin) as (Hv1 & Hf1 & E1).
  destruct (key_absorbed m (1, Float.truediv 1 32) Hm (or_introl eq_refl))
    as (Hv2 & Hf2 & E2).
  destruct (Float.ltb (distance m kv) (distance m (1, Float.truediv 1 32))) eqn:E;
    trivial.
  apply (proj1 (ltb_scaled _ _ Hv1 Hf1 Hv2 Hf2)) in E. lia.
Qed.

End Absorption.

(** X10: on a NaN, on an infinity of either sign and on every finite
    multiplier of magnitude between [2^57] and [2^1022] all keys of the scan
    are equal and the Windows [from_intermediate] returns tick 1, also when
    the multiplier is far above the largest entry of the table. *)
Theorem windows_from_intermediate_degenerate m :
  huge m \/ multiplier m = S754_nan \/
  multiplier m = S754_infinity false \/ multiplier m = S754_infinity true ->
  WindowsPlatform.from_intermediate m = Return (WindowsSensitivity 1).
Proof.
  intros [H|[H|[H|H]]].
  - now apply from_intermediate_huge.
  - destruct m as [x]. cbn [multiplier] in H. subst x. vm_compute. reflexivity.
  - destruct m as [x]. cbn [multiplier] in H. subst x. vm_compute. reflexivity.
  - destruct m as [x]. cbn [multiplier] in H. subst x. vm_compute. reflexivity.
Qed.

Lemma windows_from_intermediate_degenerate_witness :
  WindowsPlatform.from_intermediate
    (Build_IntermediateSensitivity (Float.of_Z (10 ^ 30)))
  = Return (WindowsSensitivity 1).
Proof.
  apply (windows_from_intermediate_degenerate
           (Build_IntermediateSensitivity (Float.of_Z (10 ^ 30)))).
  left. split; [|split]; vm_compute; reflexivity.
Defined.

(** ** Windows: ticks are fixed points *)

Section Requantize.

Lemma windows_tick_fixed t :
  1 <= t <= 20 ->
  (m <- WindowsPlatform.to_intermediate (WindowsSensitivity t) ;;
   WindowsPlatform.from_intermediate m) = Return (WindowsSensitivity t).
Proof.
  intros Ht.
  assert (Hcases : t = 1 \/ t = 2 \/ t = 3 \/ t = 4 \/ t = 5 \/ t = 6 \/ t = 7
                   \/ t = 8 \/ t = 9 \/ t = 10 \/ t = 11 \/ t = 12 \/ t = 13
                   \/ t = 14 \/ t = 15 \/ t = 16 \/ t = 17 \/ t = 18 \/ t = 19
                   \/ t = 20) by lia.
  repeat (destruct Hcases as [-> | Hcases]; [vm_compute; reflexivity|]).
  subst t. vm_compute; reflexivity.
Qed.

End Requantize.

(** X11: the tick that the Windows [from_intermediate] returns, for any
    multiplier whatsoever, is a fixed point: its table multiplier is sent
    back to the same tick. *)
Theorem windows_requantize m :
  (s <- WindowsPlatform.from_intermediate m ;;
   m' <- WindowsPlatform.to_intermediate s ;;
   WindowsPlatform.from_intermediate m')
  = WindowsPlatform.from_intermediate m.
Proof.
  destruct (windows_from_intermediate_legal m) as (t & Ht & Hr).
  rewrite Ht. cbn [bind]. now apply windows_tick_fixed.
Qed.

(** ** KDE: returned values are fixed points *)

Section KdeFixed.

Local Abbreviation one := (Float.of_Z 1).
Local Abbreviation minus_one := (Float.neg (Float.of_Z 1)).
Local Abbreviation clamp x := (Builtins.max2 minus_one (Builtins.min2 one x)).

(** Valid floats with the same value other than zero are the same float. *)
Lemma scaled_inj x y :
  Float.valid x = true -> finite_or_zero x = true ->
  Float.valid y = true -> finite_or_zero y = true ->
  scaled x = scaled y -> scaled y <> 0 -> x = y.
Proof.
  intros Hvx Hfx Hvy Hfy Heq Hne.
  pose proof (proj2 (eqb_scaled x y Hvx Hfx Hvy Hfy) Heq) as He.
  destruct y as [s|s| |s m e]; try discriminate.
  - now cbn in Hne.
  - now apply eqb_finite_inv.
Qed.

Lemma ulp_exp_lower S : 0 < ulp_exp S -> 2 ^ (52 + ulp_exp S) <= Z.abs S.
Proof.
  unfold ulp_exp. intros H.
  assert (Hpos : 0 < Z.abs S).
  { destruct (Z.eq_dec (Z.abs S) 0) as [E|]; [|lia]. rewrite E in H. cbn in H. lia. }
  destruct (Z.log2_spec (Z.abs S) Hpos) as [Hlo _].
  replace (52 + Z.max (Z.log2 (Z.abs S) - 52) 0) with (Z.log2 (Z.abs S)) by lia.
  exact Hlo.
Qed.

(** Rounding a value of at least [lo >= 0] cannot fall below a power of two
    that is not larger than [lo]. *)
Lemma rounds_to_ge_pow2 S r j :
  rounds_to S r -> 0 <= j -> 2 ^ j <= S -> 2 ^ j <= scaled r.
Proof.
  intros (_ & _ & Hg & He) Hj Hle.
  pose proof (ulp_exp_nonneg S) as Hk0.
  pose proof (pow2_pos (ulp_exp S) Hk0) as Hp.
  destruct (Z_le_gt_dec (ulp_exp S) j) as [Hkj|Hkj].
  - apply (grid_ge (2 ^ ulp_exp S)); trivial; [apply pow2_divide; lia | lia].
  - pose proof (ulp_exp_lower S ltac:(lia)) as Hlo.
    assert (H52 : 2 ^ (52 + ulp_exp S) = 2 ^ 52 * 2 ^ ulp_exp S)
      by (rewrite Z.pow_add_r by lia; reflexivity).
    assert (E52 : 2 ^ 52 = 4503599627370496) by reflexivity.
    pose proof (pow2_le j (ulp_exp S) ltac:(lia)). lia.
Qed.

Lemma rounds_to_opp S r : rounds_to S r -> rounds_to (- S) (Float.neg r).
Proof.
  intros (Hv & Hf & Hg & He). unfold rounds_to. rewrite ulp_exp_opp.
  assert (Es : scaled (Float.neg r) = - scaled r).
  { destruct r as [s|s| |s m e]; try reflexivity.
    cbn [Float.neg SFopp scaled]. destruct s; cbn [negb cond_Zopp]; lia. }
  rewrite Es. split; [now destruct r|]. split; [now destruct r|]. split.
  - now apply Z.divide_opp_r.
  - replace (- scaled r - - S) with (- (scaled r - S)) by ring.
    now rewrite Z.abs_opp.
Qed.

Lemma clamp_ge_one x : Float.leb one x = true -> clamp x = one.
Proof.
  intros H. destruct (Float.ltb one x) eqn:E; [now apply clamp_above|].
  pose proof (leb_ltb_false_eqb _ _ H E) as Heq. rewrite eqb_sym in Heq.
  rewrite one_finite in Heq. apply eqb_finite_inv in Heq.
  rewrite Heq, <- one_finite. apply clamp_id. split; vm_compute; reflexivity.
Qed.

Lemma clamp_le_minus_one x : Float.leb x minus_one = true -> clamp x = minus_one.
Proof.
  intros H. destruct (Float.ltb x minus_one) eqn:E; [now apply clamp_below|].
  pose proof (leb_ltb_false_eqb _ _ H E) as Heq.
  rewrite minus_one_finite in Heq. apply eqb_finite_inv in Heq.
  rewrite Heq, <- minus_one_finite. apply clamp_id. split; vm_compute; reflexivity.
Qed.

(** The value that [from_intermediate] returns. *)
Lemma kde_from_intermediate_eq m :
  KDEPlatform.from_intermediate m
  = Return (KDESensitivity (clamp (Float.sub (multiplier m) one))).
Proof.
  unfold KDEPlatform.from_intermediate. apply KDESensitivity_init_ok, clamp_in_range.
Qed.

Lemma kde_fixed_one : kde_fixed one.
Proof. vm_compute. reflexivity. Qed.

Lemma kde_fixed_minus_one : kde_fixed minus_one.
Proof. vm_compute. reflexivity. Qed.

Lemma kde_fixed_zero : kde_fixed (S754_zero false).
Proof. vm_compute. reflexivity. Qed.

(** On the grid of the floats just below 1.0 for a value that is not
    positive, and of those just above 1.0 for a value that is not negative,
    neither [1.0 + v] nor the subtraction that follows is rounded. *)
Lemma kde_fixed_grid v :
  Float.valid v = true -> finite_or_zero v = true -> scaled v <> 0 ->
  (- 2 ^ 1074 <= scaled v <= 0 /\ (2 ^ 1021 | scaled v)) \/
  (0 <= scaled v <= 2 ^ 1074 /\ (2 ^ 1022 | scaled v)) ->
  kde_fixed v.
Proof.
  intros Hv Hf Hnz Hgrid.
  destruct pow2_table as (HP & H1022 & H1023 & H1073 & H1074 & H1075).
  cbv zeta in *.
  assert (H53 : 2 ^ 53 = 9007199254740992) by reflexivity.
  assert (H54 : 2 ^ 54 = 18014398509481984) by reflexivity.
  assert (HV : - 2 ^ 1074 <= scaled v <= 2 ^ 1074) by lia.
  pose proof (proj2 (kde_in_range_scaled v Hv Hf) HV) as Hr.
  destruct (kde_add_sub_one v Hv Hr) as (Hvy & Hry & _).
  set (y := Float.sub (Float.add one v) one) in *.
  pose proof (kde_in_range_finite y Hry) as Hfy.
  assert (Hbig : 2 ^ 55 * 2 ^ 1021 < 2 ^ 2097).
  { rewrite <- Z.pow_add_r by lia. apply pow2_lt. lia. }
  assert (H55 : 2 ^ 55 = 36028797018963968) by reflexivity.
  assert (Hx : rounds_to (2 ^ 1074 + scaled v) (Float.add one v)).
  { rewrite <- scaled_one. apply (add_spec one v valid_one eq_refl Hv Hf).
    rewrite scaled_one. lia. }
  assert (Ex : scaled (Float.add one v) = 2 ^ 1074 + scaled v).
  { destruct Hgrid as [[Hb Hg]|[Hb Hg]].
    - apply (rounds_to_exact _ _ 1021 Hx); [lia| |].
      + apply Z.divide_add_r; trivial. apply pow2_divide. lia.
      + change (53 + 1021) with 1074. lia.
    - apply (rounds_to_exact _ _ 1022 Hx); [lia| |].
      + apply Z.divide_add_r; trivial. apply pow2_divide. lia.
      + change (53 + 1022) with 1075. lia. }
  assert (Hy : rounds_to (scaled (Float.add one v) - 2 ^ 1074) y).
  { destruct Hx as (Hvx & Hfx & _).
    rewrite <- scaled_one. apply (sub_spec _ one Hvx Hfx valid_one eq_refl).
    rewrite scaled_one, Ex. lia. }
  assert (Ey : scaled y = scaled v).
  { rewrite Ex in Hy. replace (2 ^ 1074 + scaled v - 2 ^ 1074) with (scaled v) in Hy by lia.
    destruct Hgrid as [[Hb Hg]|[Hb Hg]].
    - apply (rounds_to_exact _ _ 1021 Hy); [lia|trivial|].
      change (53 + 1021) with 1074. lia.
    - apply (rounds_to_exact _ _ 1022 Hy); [lia|trivial|].
      change (53 + 1022) with 1075. lia. }
  unfold kde_fixed. fold y. rewrite (clamp_id y Hry).
  now apply scaled_inj.
Qed.

(** What [m - 1.0] is rounded to for a finite [m] of magnitude at most
    [2^1022], after the clamp, is a fixed value. *)
Lemma kde_clamp_sub_fixed x :
  Float.valid x = true -> finite_or_zero x = true ->
  Z.abs (scaled x) <= 2 ^ 2096 ->
  kde_fixed (clamp (Float.sub x one)).
Proof.
  intros Hv Hf Hb.
  destruct pow2_table as (HP & H1022 & H1023 & H1073 & H1074 & H1075).
  cbv zeta in *.
  assert (H52 : 2 ^ 52 = 4503599627370496) by reflexivity.
  assert (H53 : 2 ^ 53 = 9007199254740992) by reflexivity.
  assert (H54 : 2 ^ 54 = 18014398509481984) by reflexivity.
  assert (H2097 : 2 ^ 2097 = 2 * 2 ^ 2096).
  { change 2097 with (1 + 2096). now rewrite Z.pow_add_r by lia. }
  pose proof (pow2_lt 1074 2096 ltac:(lia)) as Hlt.
  set (M := scaled x) in *. set (r := Float.sub x one).
  assert (Hs : rounds_to (M - 2 ^ 1074) r).
  { rewrite <- scaled_one. apply (sub_spec x one Hv Hf valid_one eq_refl).
    rewrite scaled_one. fold M. lia. }
  pose proof Hs as (Hvr & Hfr & Hgr & Her).
  destruct (Z_lt_le_dec (2 ^ 1075) M) as [Hhigh|Hle2].
  { (* above 2.0: clamped to 1.0 *)
    assert (HR : 2 ^ 1074 <= scaled r).
    { apply (rounds_to_ge_pow2 _ _ 1074 Hs); lia. }
    rewrite clamp_ge_one; [apply kde_fixed_one|].
    apply (proj2 (leb_scaled _ _ valid_one eq_refl Hvr Hfr)).
    now rewrite scaled_one. }
  destruct (Z_lt_le_dec M 0) as [Hneg|Hpos].
  { (* below 0.0: clamped to -1.0 *)
    pose proof (rounds_to_opp _ _ Hs) as Hs'.
    assert (HR : 2 ^ 1074 <= scaled (Float.neg r)).
    { apply (rounds_to_ge_pow2 _ _ 1074 Hs'); lia. }
    assert (Es : scaled (Float.neg r) = - scaled r).
    { destruct r as [s|s| |s m e]; try reflexivity.
      cbn [Float.neg SFopp scaled]. destruct s; cbn [negb cond_Zopp]; lia. }
    rewrite clamp_le_minus_one; [apply kde_fixed_minus_one|].
    apply (proj2 (leb_scaled _ _ Hvr Hfr valid_minus_one eq_refl)).
    rewrite scaled_minus_one. lia. }
  (* between 0.0 and 2.0: the clamp has no effect *)
  assert (Hk : ulp_exp (M - 2 ^ 1074) <= 1022).
  { apply ulp_exp_bound; [lia|]. change (53 + 1022) with 1075. lia. }
  pose proof (ulp_exp_nonneg (M - 2 ^ 1074)) as Hk0.
  assert (HgM : (2 ^ ulp_exp M | M)).
  { now destruct (rounds_to_self x Hv Hf) as (_ & _ & Hg & _). }
  destruct (Z.eq_dec M (2 ^ 1074)) as [Eone|Hne].
  { (* exactly 1.0 *)
    assert (Ex : x = one).
    { apply (scaled_inj x one Hv Hf valid_one eq_refl); rewrite scaled_one; lia. }
    unfold r. rewrite Ex. vm_compute. reflexivity. }
  assert (Hrange : - 2 ^ 1074 <= scaled r <= 2 ^ 1074).
  { apply (rounds_to_between _ _ _ _ Hs); [| |lia].
    - apply (proj2 (Z.divide_opp_r _ _)), pow2_divide. lia.
    - apply pow2_divide. lia. }
  rewrite (clamp_id r (proj2 (kde_in_range_scaled r Hvr Hfr) Hrange)).
  destruct (Z_lt_le_dec (2 ^ 1074) M) as [Ha|Ha'].
  - (* 1.0 < m <= 2.0 : [m - 1.0] is exact, on the grid of [m] *)
    assert (Hg22 : (2 ^ 1022 | M)).
    { apply Z.divide_trans with (2 ^ ulp_exp M); trivial.
      apply pow2_divide. split; [lia|]. apply ulp_exp_ge; [lia|].
      change (52 + 1022) with 1074. lia. }
    assert (Er : scaled r = M - 2 ^ 1074).
    { apply (rounds_to_exact _ _ 1022 Hs); [lia| |].
      - apply Z.divide_sub_r; trivial. apply pow2_divide. lia.
      - change (53 + 1022) with 1075. lia. }
    apply kde_fixed_grid; trivial; [lia|]. right. split; [lia|].
    rewrite Er. apply Z.divide_sub_r; trivial. apply pow2_divide. lia.
  - destruct (Z_le_gt_dec (2 ^ 1073) M) as [Hb1|Hc].
    + (* 0.5 <= m < 1.0 *)
      assert (Hg21 : (2 ^ 1021 | M)).
      { apply Z.divide_trans with (2 ^ ulp_exp M); trivial.
        apply pow2_divide. split; [lia|]. apply ulp_exp_ge; [lia|].
        change (52 + 1021) with 1073. lia. }
      assert (Er : scaled r = M - 2 ^ 1074).
      { apply (rounds_to_exact _ _ 1021 Hs); [lia| |].
        - apply Z.divide_sub_r; trivial. apply pow2_divide. lia.
        - change (53 + 1021) with 1074. lia. }
      apply kde_fixed_grid; trivial; [lia|]. left. split; [lia|].
      rewrite Er. apply Z.divide_sub_r; trivial. apply pow2_divide. lia.
    + (* 0.0 <= m < 0.5 : [m - 1.0] is rounded onto the grid below 1.0 *)
      assert (Hk21 : 1021 <= ulp_exp (M - 2 ^ 1074)).
      { apply ulp_exp_ge; [lia|]. change (52 + 1021) with 1073. lia. }
      assert (Hup : scaled r <= - 2 ^ 1073).
      { apply (rounds_to_between _ _ (- 2 ^ 1074) (- 2 ^ 1073) Hs); [| |lia].
        - apply (proj2 (Z.divide_opp_r _ _)), pow2_divide. lia.
        - apply (proj2 (Z.divide_opp_r _ _)), pow2_divide. lia. }
      apply kde_fixed_grid; trivial; [lia|]. left. split; [lia|].
      apply Z.divide_trans with (2 ^ ulp_exp (M - 2 ^ 1074)); trivial.
      apply pow2_divide. lia.
Qed.

Lemma below_top_cases m :
  below_top m ->
  kde_fixed (clamp (Float.sub (multiplier m) one)).
Proof.
  intros [H|[[s H]|[Hv Hle]]].
  - rewrite H. vm_compute. reflexivity.
  - rewrite H. destruct s; vm_compute; reflexivity.
  - assert (Hf : finite_or_zero (multiplier m) = true).
    { revert Hle. destruct (multiplier m) as [| | |]; try reflexivity; discriminate. }
    apply kde_clamp_sub_fixed; trivial.
    assert (Hva : Float.valid (Float.abs (multiplier m)) = true) by now rewrite abs_valid.
    assert (Hfa : finite_or_zero (Float.abs (multiplier m)) = true)
      by now rewrite abs_finite_or_zero.
    assert (Hv2 : Float.valid (Float.of_Z (2 ^ 1022)) = true) by (vm_compute; reflexivity).
    assert (E2 : scaled (Float.of_Z (2 ^ 1022)) = 2 ^ 2096) by (vm_compute; reflexivity).
    rewrite <- abs_scaled, <- E2.
    exact (proj1 (leb_scaled _ _ Hva Hfa Hv2 eq_refl) Hle).
Qed.

End KdeFixed.

(** X12: the value that the KDE [from_intermediate] returns, for a
    multiplier that is NaN, infinite or of magnitude at most [2^1022], is a
    fixed point: sent to the neutral form and back it is returned as the
    very same float, although the round trip of an arbitrary legal value is
    only approximate. *)
Theorem kde_requantize m :
  below_top m ->
  (s <- KDEPlatform.from_intermediate m ;;
   m' <- KDEPlatform.to_intermediate s ;;
   KDEPlatform.from_intermediate m')
  = KDEPlatform.from_intermediate m.
Proof.
  intros Hm. rewrite (kde_from_intermediate_eq m). cbn [bind].
  unfold KDEPlatform.to_intermediate. cbn [bind].
  rewrite kde_from_intermediate_eq. cbn [multiplier].
  do 2 f_equal. now apply below_top_cases.
Qed.

Lemma kde_requantize_witness :
  (s <- KDEPlatform.from_intermediate (Build_IntermediateSensitivity (Float.decimal 3 1)) ;;
   m' <- KDEPlatform.to_intermediate s ;;
   KDEPlatform.from_intermediate m')
  = KDEPlatform.from_intermediate (Build_IntermediateSensitivity (Float.decimal 3 1)).
Proof.
  apply (kde_requantize (Build_IntermediateSensitivity (Float.decimal 3 1))).
  right. right. split; vm_compute; reflexivity.
Defined.

(** ** Entry point *)

Section CliProperties.

Import String.
Import Cli.

Lemma platforms_choice name :
  choice name ->
  exists p, getitem_str platforms name = Return p /\ is_platform p /\
            (name = "windows"%string -> p = WindowsPlatform.platform) /\
            (name = "kde"%string -> p = KDEPlatform.platform).
Proof.
  intros [-> | ->].
  - exists WindowsPlatform.platform. split; [reflexivity|]. split; [now left|].
    split; [reflexivity | discriminate].
  - exists KDEPlatform.platform. split; [reflexivity|]. split; [now right|].
    split; [discriminate | reflexivity].
Qed.

(** [int] of a finite float is its exact value truncated toward zero. *)
Lemma int_of_float_trunc x :
  Float.valid x = true -> finite_or_zero x = true ->
  int_of_float x = Done (Z.quot (scaled x) (2 ^ 1074)).
Proof.
  intros Hv Hf. destruct x as [s|s| |s m e]; try discriminate.
  - reflexivity.
  - pose proof (valid_exponent _ _ _ Hv) as He.
    cbn [int_of_float scaled]. f_equal.
    assert (Hq : Z.shiftl (Z.pos m) e = Z.pos m * 2 ^ (e + 1074) / 2 ^ 1074).
    { destruct (Z_le_gt_dec 0 e) as [Hpos|Hneg].
      - rewrite Z.shiftl_mul_pow2 by lia.
        rewrite (Z.pow_add_r 2 e 1074), Z.mul_assoc by lia.
        rewrite Z.div_mul; [reflexivity|].
        pose proof (pow2_pos 1074 ltac:(lia)). lia.
      - rewrite Z.shiftl_div_pow2 by lia.
        replace 1074 with (- e + (e + 1074)) at 2 by lia.
        rewrite (Z.pow_add_r 2 (- e) (e + 1074)) by lia.
        rewrite Z.div_mul_cancel_r; [reflexivity| |].
        + pose proof (pow2_pos (- e) ltac:(lia)). lia.
        + pose proof (pow2_pos (e + 1074) ltac:(lia)). lia. }
    pose proof (pow2_pos (e + 1074) ltac:(lia)) as Hp.
    pose proof (pow2_pos 1074 ltac:(lia)) as HD.
    destruct s; cbn [cond_Zopp].
    + rewrite Z.mul_opp_l, Z.quot_opp_l by lia.
      rewrite Z.quot_div_nonneg by nia. now rewrite Hq.
    + rewrite Z.quot_div_nonneg by nia. exact Hq.
Qed.

Lemma trunc_in_range V :
  1 <= Z.quot V (2 ^ 1074) <= 20 <-> 2 ^ 1074 <= V < 21 * 2 ^ 1074.
Proof.
  pose proof (pow2_pos 1074 ltac:(lia)) as HD. set (D := 2 ^ 1074) in *.
  destruct (Z_lt_le_dec V 0) as [Hneg|Hpos].
  - assert (Z.quot V D <= 0).
    { rewrite <- (Z.opp_involutive V), Z.quot_opp_l by lia.
      pose proof (Z.quot_pos (- V) D ltac:(lia) HD). lia. }
    lia.
  - rewrite Z.quot_div_nonneg by lia.
    pose proof (Z.div_mod V D ltac:(lia)) as Hdm.
    pose proof (Z.mod_pos_bound V D HD) as Hb. nia.
Qed.

Lemma to_Q_ge_one v : (1 <= to_Q v)%Q <-> 2 ^ 1074 <= scaled v.
Proof. unfold to_Q, Qle. cbn [Qnum Qden]. rewrite pos_pow_1074. lia. Qed.

Lemma to_Q_lt_21 v : (to_Q v < 21)%Q <-> scaled v < 21 * 2 ^ 1074.
Proof. unfold to_Q, Qlt. cbn [Qnum Qden]. rewrite pos_pow_1074. lia. Qed.

Lemma main_windows_core dst v :
  choice dst -> Float.valid v = true ->
  let args := {| from_platform := "windows"; to_platform := dst; value := v |} in
  (finite_or_zero v = true -> (1 <= to_Q v)%Q -> (to_Q v < 21)%Q ->
     exists dst_p t s,
       getitem_str platforms dst = Return dst_p /\
       t = Z.quot (scaled v) (2 ^ 1074) /\ 1 <= t <= 20 /\
       convert_sensitivity WindowsPlatform.platform dst_p (WindowsSensitivity t)
       = Return s /\
       main args = Done s) /\
  (finite_or_zero v = true -> ~ ((1 <= to_Q v)%Q /\ (to_Q v < 21)%Q) ->
     main args = Abort (CoreError ValueError)) /\
  (v = S754_nan -> main args = Abort (CoreError ValueError)) /\
  ((exists s, v = S754_infinity s) -> main args = Abort OverflowError).
Proof.
  intros Hdst Hv args.
  destruct (platforms_choice dst Hdst) as (dst_p & Hget & Hp & _).
  assert (Hmain : main args
                  = and_then (and_then (int_of_float v)
                                (fun t => lift (WindowsSensitivity_init t)))
                      (fun s => lift (convert_sensitivity WindowsPlatform.platform dst_p s))).
  { unfold main, args. cbn [from_platform to_platform value].
    rewrite Hget. reflexivity. }
  split; [|split; [|split]].
  - intros Hf H1 H21. apply to_Q_ge_one in H1. apply to_Q_lt_21 in H21.
    pose proof (proj2 (trunc_in_range (scaled v)) (conj H1 H21)) as Ht.
    destruct (convert_sensitivity_legal WindowsPlatform.platform dst_p
                (WindowsSensitivity (Z.quot (scaled v) (2 ^ 1074))) Hp)
      as (s & Hs & Hl); [left; eauto|].
    exists dst_p, (Z.quot (scaled v) (2 ^ 1074)), s.
    split; [exact Hget|]. split; [reflexivity|]. split; [exact Ht|].
    split; [exact Hs|].
    rewrite Hmain, (int_of_float_trunc v Hv Hf). cbn [and_then].
    rewrite (WindowsSensitivity_init_ok _ Ht). cbn [lift and_then].
    now rewrite Hs.
  - intros Hf Hn. rewrite to_Q_ge_one, to_Q_lt_21 in Hn.
    rewrite Hmain, (int_of_float_trunc v Hv Hf). cbn [and_then].
    unfold WindowsSensitivity_init.
    destruct ((1 <=? _) && (_ <=? 20)) eqn:E; cbn [negb lift and_then]; [|reflexivity].
    apply andb_true_iff in E. exfalso. apply Hn. apply trunc_in_range. lia.
  - intros ->. rewrite Hmain. reflexivity.
  - intros [s ->]. rewrite Hmain. reflexivity.
Qed.

Lemma main_kde_core dst v :
  choice dst ->
  let args := {| from_platform := "kde"; to_platform := dst; value := v |} in
  (kde_in_range v ->
     exists dst_p s,
       getitem_str platforms dst = Return dst_p /\
       convert_sensitivity KDEPlatform.platform dst_p (KDESensitivity v) = Return s /\
       legal_for dst_p s /\
       main args = Done s) /\
  (~ kde_in_range v -> main args = Abort (CoreError ValueError)).
Proof.
  intros Hdst args.
  destruct (platforms_choice dst Hdst) as (dst_p & Hget & Hp & _).
  assert (Hmain : main args
                  = and_then (lift (KDESensitivity_init v))
                      (fun s => lift (convert_sensitivity KDEPlatform.platform dst_p s))).
  { unfold main, args. cbn [from_platform to_platform value].
    rewrite Hget. reflexivity. }
  split.
  - intros Hr.
    destruct (convert_sensitivity_legal KDEPlatform.platform dst_p
                (KDESensitivity v) Hp) as (s & Hs & Hl); [right; eauto|].
    exists dst_p, s. split; [exact Hget|]. split; [exact Hs|]. split; [exact Hl|].
    rewrite Hmain, (KDESensitivity_init_ok v Hr). cbn [lift and_then].
    now rewrite Hs.
  - intros Hn. rewrite Hmain, (KDESensitivity_init_raise v Hn). reflexivity.
Qed.

Lemma main_errors_core src dst v e :
  choice src -> choice dst -> Float.valid v = true ->
  main {| from_platform := src; to_platform := dst; value := v |} = Abort e ->
  e = CoreError ValueError \/
  (e = OverflowError /\ src = "windows"%string /\ exists s, v = S754_infinity s).
Proof.
  intros [-> | ->] Hdst Hv H.
  - destruct (main_windows_core dst v Hdst Hv) as (Hok & Hbad & Hnan & Hinf).
    cbv zeta in *.
    destruct v as [s|s| |s m ex].
    + rewrite (Hbad eq_refl) in H; [left; congruence|].
      intros [H1 _]. apply to_Q_ge_one in H1. cbn [scaled] in H1.
      pose proof (pow2_pos 1074 ltac:(lia)). lia.
    + rewrite (Hinf (ex_intro _ s eq_refl)) in H.
      right. split; [congruence|]. split; [reflexivity|]. now exists s.
    + rewrite (Hnan eq_refl) in H. left. congruence.
    + destruct (Qlt_le_dec (to_Q (S754_finite s m ex)) 1) as [Hlt|Hge].
      * rewrite (Hbad eq_refl) in H; [left; congruence|].
        intros [H1 _]. now apply (Qlt_not_le _ _ Hlt).
      * destruct (Qlt_le_dec (to_Q (S754_finite s m ex)) 21) as [Hlt|Hge'].
        -- destruct (Hok eq_refl Hge Hlt) as (dp & t & s' & _ & _ & _ & _ & Hd).
           rewrite Hd in H. discriminate.
        -- rewrite (Hbad eq_refl) in H; [left; congruence|].
           intros [_ H2]. now apply (Qlt_not_le _ _ H2).
  - destruct (main_kde_core dst v Hdst) as (Hok & Hbad). cbv zeta in *.
    assert (Hdec : kde_in_range v \/ ~ kde_in_range v).
    { unfold kde_in_range.
      destruct (Float.leb (Float.neg (Float.of_Z 1)) v);
        destruct (Float.leb v (Float.of_Z 1)); intuition congruence. }
    destruct Hdec as [Hr|Hn].
    + destruct (Hok Hr) as (dp & s' & _ & _ & _ & Hd). rewrite Hd in H. discriminate.
    + rewrite (Hbad Hn) in H. left. congruence.
Qed.

(** X13: with the source platform "windows" the entry point truncates the
    value toward zero: it converts tick [int(value)] when [1 <= value < 21],
    ends with [ValueError] on every other finite value and on NaN, and with
    [OverflowError] on an infinity. *)
Theorem main_windows_source dst v :
  Cli.choice dst -> Float.valid v = true ->
  let args := Cli.Build_Namespace "windows" dst v in
  (finite_or_zero v = true -> (1 <= to_Q v)%Q -> (to_Q v < 21)%Q ->
     exists dst_p t s,
       Cli.getitem_str Cli.platforms dst = Return dst_p /\
       t = Z.quot (scaled v) (2 ^ 1074) /\ 1 <= t <= 20 /\
       convert_sensitivity WindowsPlatform.platform dst_p (WindowsSensitivity t)
       = Return s /\
       Cli.main args = Cli.Done s) /\
  (finite_or_zero v = true -> ~ ((1 <= to_Q v)%Q /\ (to_Q v < 21)%Q) ->
     Cli.main args = Cli.Abort (Cli.CoreError ValueError)) /\
  (v = S754_nan -> Cli.main args = Cli.Abort (Cli.CoreError ValueError)) /\
  ((exists s, v = S754_infinity s) -> Cli.main args = Cli.Abort Cli.OverflowError).
Proof. intros Hdst Hv. now apply main_windows_core. Qed.

Lemma main_windows_source_witness :
  let args := Cli.Build_Namespace "windows" "kde" (Float.decimal 127 1) in
  (finite_or_zero (Float.decimal 127 1) = true ->
   (1 <= to_Q (Float.decimal 127 1))%Q -> (to_Q (Float.decimal 127 1) < 21)%Q ->
     exists dst_p t s,
       Cli.getitem_str Cli.platforms "kde" = Return dst_p /\
       t = Z.quot (scaled (Float.decimal 127 1)) (2 ^ 1074) /\ 1 <= t <= 20 /\
       convert_sensitivity WindowsPlatform.platform dst_p (WindowsSensitivity t)
       = Return s /\
       Cli.main args = Cli.Done s) /\
  (finite_or_zero (Float.decimal 127 1) = true ->
   ~ ((1 <= to_Q (Float.decimal 127 1))%Q /\ (to_Q (Float.decimal 127 1) < 21)%Q) ->
     Cli.main args = Cli.Abort (Cli.CoreError ValueError)) /\
  (Float.decimal 127 1 = S754_nan ->
     Cli.main args = Cli.Abort (Cli.CoreError ValueError)) /\
  ((exists s, Float.decimal 127 1 = S754_infinity s) ->
     Cli.main args = Cli.Abort Cli.OverflowError).
Proof.
  apply (main_windows_source "kde" (Float.decimal 127 1)).
  - right. reflexivity.
  - vm_compute. reflexivity.
Defined.

(** 12.7 is read as tick 12, 0.99 and 21.0 are rejected. *)
Lemma main_windows_examples :
  Cli.main (Cli.Build_Namespace "windows" "windows" (Float.decimal 127 1))
  = Cli.Done (WindowsSensitivity 12) /\
  Cli.main (Cli.Build_Namespace "windows" "kde" (Float.decimal 99 2))
  = Cli.Abort (Cli.CoreError ValueError) /\
  Cli.main (Cli.Build_Namespace "windows" "kde" (Float.of_Z 21))
  = Cli.Abort (Cli.CoreError ValueError) /\
  Cli.main (Cli.Build_Namespace "windows" "kde" (Float.decimal 209 1))
  = Cli.Done (KDESensitivity (Float.of_Z 1)).
Proof. repeat split; vm_compute; reflexivity. Qed.

(** X14: with the source platform "kde" the entry point converts the
    value as it is when [-1.0 <= value <= 1.0] holds, to a legal value of
    the destination, and ends with [ValueError] otherwise. *)
Theorem main_kde_source dst v :
  Cli.choice dst ->
  let args := Cli.Build_Namespace "kde" dst v in
  (kde_in_range v ->
     exists dst_p s,
       Cli.getitem_str Cli.platforms dst = Return dst_p /\
       convert_sensitivity KDEPlatform.platform dst_p (KDESensitivity v) = Return s /\
       legal_for dst_p s /\
       Cli.main args = Cli.Done s) /\
  (~ kde_in_range v -> Cli.main args = Cli.Abort (Cli.CoreError ValueError)).
Proof. intros Hdst. now apply main_kde_core. Qed.

Lemma main_kde_source_witness :
  let args := Cli.Build_Namespace "kde" "windows" (Float.decimal 5 1) in
  (kde_in_range (Float.decimal 5 1) ->
     exists dst_p s,
       Cli.getitem_str Cli.platforms "windows" = Return dst_p /\
       convert_sensitivity KDEPlatform.platform dst_p (KDESensitivity (Float.decimal 5 1))
       = Return s /\
       legal_for dst_p s /\
       Cli.main args = Cli.Done s) /\
  (~ kde_in_range (Float.decimal 5 1) ->
     Cli.main args = Cli.Abort (Cli.CoreError ValueError)).
Proof.
  apply (main_kde_source "windows" (Float.decimal 5 1)).
  left. reflexivity.
Defined.

(** X15: whatever the two admitted platform names and the value, a run
    of the entry point that fails ends with [ValueError], or with
    [OverflowError] for an infinite value on "windows"; the type guards and
    the lookups never fail. *)
Theorem main_errors src dst v e :
  Cli.choice src -> Cli.choice dst -> Float.valid v = true ->
  Cli.main (Cli.Build_Namespace src dst v) = Cli.Abort e ->
  e = Cli.CoreError ValueError \/
  (e = Cli.OverflowError /\ src = "windows"%string /\ exists s, v = S754_infinity s).
Proof. apply main_errors_core. Qed.

Lemma main_errors_witness :
  Cli.CoreError ValueError = Cli.CoreError ValueError \/
  (Cli.CoreError ValueError = Cli.OverflowError /\ "kde"%string = "windows"%string /\
   exists s, Float.decimal 15 1 = S754_infinity s).
Proof.
  apply (main_errors "kde" "windows" (Float.decimal 15 1) (Cli.CoreError ValueError)).
  - right. reflexivity.
  - left. reflexivity.
  - vm_compute. reflexivity.
  - vm_compute. reflexivity.
Defined.

End CliProperties.

(** ** Display *)

Section ReprProperties.

Import String.
Import Repr.

Lemma str_int_inj z1 z2 : str_int z1 = str_int z2 -> z1 = z2.
Proof.
  unfold str_int. intros H. apply DecimalZ.to_int_inj.
  assert (E : DecimalString.NilEmpty.int_of_string
                (DecimalString.NilEmpty.string_of_int (Z.to_int z1))
              = DecimalString.NilEmpty.int_of_string
                (DecimalString.NilEmpty.string_of_int (Z.to_int z2)))
    by now rewrite H.
  rewrite !DecimalString.NilEmpty.isi in E. now injection E.
Qed.

Lemma append_inj_l (p s1 s2 : string) : (p ++ s1 = p ++ s2)%string -> s1 = s2.
Proof.
  induction p as [|c p IH]; cbn [append]; [trivial|].
  intros [= H]. now apply IH.
Qed.

Lemma append_inj_r (s1 s2 : string) c :
  (s1 ++ String c EmptyString = s2 ++ String c EmptyString)%string -> s1 = s2.
Proof.
  revert s2. induction s1 as [|a s1 IH]; intros [|b s2]; cbn [append]; trivial.
  - intros [= _ H]. destruct s2; discriminate.
  - intros [= _ H]. destruct s1; discriminate.
  - intros [= -> H]. f_equal. now apply IH.
Qed.

(** X16: the display of a [WindowsSensitivity] determines its tick. *)
Theorem WindowsSensitivity_repr_inj t1 t2 :
  WindowsSensitivity_repr t1 = WindowsSensitivity_repr t2 -> t1 = t2.
Proof.
  unfold WindowsSensitivity_repr. intros H.
  apply append_inj_l, append_inj_r in H. now apply str_int_inj.
Qed.

Lemma WindowsSensitivity_repr_inj_witness :
  WindowsSensitivity_repr 12 = WindowsSensitivity_repr (3 * 4) /\ 12 = 3 * 4.
Proof.
  split; [reflexivity|].
  apply (WindowsSensitivity_repr_inj 12 (3 * 4)). reflexivity.
Defined.

Lemma WindowsSensitivity_repr_examples :
  WindowsSensitivity_repr 12 = "WindowsSensitivity(tick=12)"%string /\
  WindowsSensitivity_repr 1 = "WindowsSensitivity(tick=1)"%string.
Proof. split; vm_compute; reflexivity. Qed.

End ReprProperties.
